(** * Random-tvshows: the selection state engine of [ShowSelector]

    A shallow embedding of [src/Random-tvshows.py].  The class [ShowSelector]
    keeps four Python lists and a counter, persists them as JSON, and reloads
    them through a chain of [try]/[except] blocks.  Python does not check the
    type annotations, so after a load the attributes may hold any JSON value;
    the embedding therefore keeps the attributes dynamically typed and writes
    out which exception each built-in raises.

    Modelling scope.
    - A string is a sequence of code points below 256 (Latin-1), one
      [ascii] per code point, not a UTF-8 byte sequence: the capital E with
      acute accent is the single character [ascii_of_nat 201].  On these
      strings [lower] and [strip] are Python's [str.lower] and [str.strip]:
      [str.lower] maps the capitals 65-90, 192-214 and 216-222 to the code
      point 32 above and leaves every other code point below 256 as it is,
      and [str.isspace] holds of 9-13, 28-32, 133 and 160.  Code points
      from 256 on are outside the model.
    - JSON documents are Python values without floats: [None], booleans,
      integers, strings, lists and dictionaries with string keys (an
      association list whose keys are pairwise distinct).
    - [random.choice] and [datetime.now] are inputs of [select_show]: the raw
      draw of the generator and the ISO timestamp.
    - Writing and renaming files succeed, and renaming replaces an existing
      target (POSIX); only the two paths the class uses are part of the
      file system.
    - Lengths stay below 2^53, so that the float of a length is exact. *)

From Stdlib Require Import List String Ascii Bool Arith ZArith Lia.
From Stdlib Require Import Permutation Sorted Floats Uint63.
Import ListNotations.
Open Scope string_scope.
Open Scope list_scope.
Open Scope nat_scope.

Set Implicit Arguments.
Set Warnings "-register-all,-inexact-float".

(* ================================================================== *)
(** ** Python values *)

Inductive value : Type :=
| VNone
| VBool (b : bool)
| VInt (z : Z)
| VStr (s : string)
| VList (l : list value)
| VDict (d : list (string * value)).

Fixpoint lookup (k : string) (d : list (string * value)) : option value :=
  match d with
  | [] => None
  | (k', v) :: d' => if String.eqb k k' then Some v else lookup k d'
  end.

(** Python's [==] on JSON values: [True == 1], lists compare element-wise,
    dictionaries compare as maps. *)
Fixpoint py_eq (a b : value) {struct a} : bool :=
  match a, b with
  | VNone, VNone => true
  | VBool x, VBool y => Bool.eqb x y
  | VBool x, VInt y => Z.eqb (Z.b2z x) y
  | VInt x, VBool y => Z.eqb x (Z.b2z y)
  | VInt x, VInt y => Z.eqb x y
  | VStr x, VStr y => String.eqb x y
  | VList xs, VList ys =>
      (fix all2 (xs ys : list value) {struct xs} : bool :=
         match xs, ys with
         | [], [] => true
         | x :: xs', y :: ys' => py_eq x y && all2 xs' ys'
         | _, _ => false
         end) xs ys
  | VDict d, VDict e =>
      Nat.eqb (List.length d) (List.length e) &&
      (fix sub (d : list (string * value)) {struct d} : bool :=
         match d with
         | [] => true
         | (k, v) :: d' =>
             match lookup k e with
             | Some v' => py_eq v v'
             | None => false
             end && sub d'
         end) d
  | _, _ => false
  end.

(** Truth value of an object, as [if x] and [not x] use it. *)
Definition truthy (v : value) : bool :=
  match v with
  | VNone => false
  | VBool b => b
  | VInt z => negb (Z.eqb z 0)
  | VStr s => negb (String.eqb s "")
  | VList l => match l with [] => false | _ => true end
  | VDict d => match d with [] => false | _ => true end
  end.

Definition is_list (v : value) : bool :=
  match v with VList _ => true | _ => false end.

(* ================================================================== *)
(** ** Strings: [str.lower] and [str.strip] on code points below 256 *)

(** The code points below 256 that [str.lower] changes: the letters A-Z
    (65-90) and the accented capitals 192-214 and 216-222 (215 is the
    multiplication sign); each becomes the code point 32 above.  The sharp
    s (223), the micro sign (181) and the y with diaeresis (255) are lower
    case already. *)
Definition is_upper (c : ascii) : bool :=
  let n := nat_of_ascii c in
  ((65 <=? n) && (n <=? 90)) ||
  ((192 <=? n) && (n <=? 214)) ||
  ((216 <=? n) && (n <=? 222)).

Definition lower_char (c : ascii) : ascii :=
  if is_upper c then ascii_of_nat (nat_of_ascii c + 32) else c.

Fixpoint lower (s : string) : string :=
  match s with
  | EmptyString => EmptyString
  | String c s' => String (lower_char c) (lower s')
  end.

(** The code points below 256 for which [str.isspace] holds, which are the
    ones [str.strip] removes: tab, line feed, vertical tab, form feed,
    carriage return (9-13), the four separators 0x1c-0x1f, space (32), next
    line (133) and no-break space (160). *)
Definition is_space (c : ascii) : bool :=
  let n := nat_of_ascii c in
  ((9 <=? n) && (n <=? 13)) || ((28 <=? n) && (n <=? 32)) ||
  (n =? 133) || (n =? 160).

Fixpoint lstrip (s : string) : string :=
  match s with
  | EmptyString => EmptyString
  | String c s' => if is_space c then lstrip s' else s
  end.

Fixpoint rstrip (s : string) : string :=
  match s with
  | EmptyString => EmptyString
  | String c s' =>
      match rstrip s' with
      | EmptyString => if is_space c then EmptyString else String c EmptyString
      | t => String c t
      end
  end.

Definition strip (s : string) : string := rstrip (lstrip s).

(** Two names spelled by code point: a capital E with acute accent (201)
    and a small one (233), each followed by the letters c, o, l, e. *)
Definition Ecole : string := String (ascii_of_nat 201) "cole".
Definition ecole : string := String (ascii_of_nat 233) "cole".

Definition chars (s : string) : list value :=
  map (fun c => VStr (String c EmptyString)) (list_ascii_of_string s).

(* ================================================================== *)
(** ** Exceptions and the built-ins the class calls *)

Inductive exn : Type :=
| JSONDecodeError
| KeyError
| ValueError
| TypeError
| AttributeError
| IndexError
| ZeroDivisionError
| FileNotFoundError
| UnboundLocalError.

Inductive outcome (A : Type) : Type :=
| Ret (a : A)
| Raise (e : exn).

Arguments Raise {A} e.

Definition obind {A B} (r : outcome A) (k : A -> outcome B) : outcome B :=
  match r with
  | Ret a => k a
  | Raise e => Raise e
  end.

(** [len(x)] *)
Definition py_len (v : value) : outcome nat :=
  match v with
  | VStr s => Ret (String.length s)
  | VList l => Ret (List.length l)
  | VDict d => Ret (List.length d)
  | _ => Raise TypeError
  end.

(** The elements [for s in x] visits. *)
Definition py_iter (v : value) : outcome (list value) :=
  match v with
  | VList l => Ret l
  | VStr s => Ret (chars s)
  | VDict d => Ret (map (fun kv => VStr (fst kv)) d)
  | _ => Raise TypeError
  end.

(** [x[key]] with a string key. *)
Definition py_getitem (v : value) (key : string) : outcome value :=
  match v with
  | VDict d => match lookup key d with
               | Some x => Ret x
               | None => Raise KeyError
               end
  | _ => Raise TypeError
  end.

(** [key in x] with a string key. *)
Definition py_contains (v : value) (key : string) : outcome bool :=
  match v with
  | VDict d => Ret (match lookup key d with Some _ => true | None => false end)
  | VList l => Ret (existsb (fun x => py_eq x (VStr key)) l)
  | VStr s => Ret (match String.index 0 key s with Some _ => true | None => false end)
  | _ => Raise TypeError
  end.

(** [x.get(key, [])] *)
Definition dict_get (v : value) (key : string) : outcome value :=
  match v with
  | VDict d => Ret (match lookup key d with Some x => x | None => VList [] end)
  | _ => Raise AttributeError
  end.

(** [x.lower()] *)
Definition str_lower (v : value) : outcome string :=
  match v with
  | VStr s => Ret (lower s)
  | _ => Raise AttributeError
  end.

(** [x + ys] where [ys] is a list. *)
Definition list_add (v : value) (ys : list value) : outcome (list value) :=
  match v with
  | VList xs => Ret (xs ++ ys)
  | _ => Raise TypeError
  end.

(** [x.append(y)] *)
Definition list_append (v y : value) : outcome value :=
  match v with
  | VList l => Ret (VList (l ++ [y]))
  | _ => Raise AttributeError
  end.

Fixpoint remove_first (y : value) (l : list value) : option (list value) :=
  match l with
  | [] => None
  | x :: l' =>
      if py_eq x y then Some l'
      else match remove_first y l' with
           | Some r => Some (x :: r)
           | None => None
           end
  end.

(** [x.remove(y)]: drops the first element equal to [y]. *)
Definition list_remove (v y : value) : outcome value :=
  match v with
  | VList l => match remove_first y l with
               | Some l' => Ret (VList l')
               | None => Raise ValueError
               end
  | _ => Raise AttributeError
  end.

(** [x.pop()]: the last element and the list without it. *)
Definition list_pop (v : value) : outcome (value * value) :=
  match v with
  | VList l => match rev l with
               | [] => Raise IndexError
               | y :: _ => Ret (y, VList (removelast l))
               end
  | VDict _ => Raise TypeError
  | _ => Raise AttributeError
  end.

(** [x.insert(i, y)] with [0 <= i]. *)
Definition list_insert (v : value) (i : nat) (y : value) : outcome value :=
  match v with
  | VList l => Ret (VList (firstn i l ++ y :: skipn i l))
  | _ => Raise AttributeError
  end.

Fixpoint index_of (y : value) (l : list value) : option nat :=
  match l with
  | [] => None
  | x :: l' =>
      if py_eq x y then Some 0
      else match index_of y l' with
           | Some i => Some (S i)
           | None => None
           end
  end.

(** [x.index(y)]: lists search by equality, strings search a substring. *)
Definition py_index (v y : value) : outcome nat :=
  match v with
  | VList l => match index_of y l with
               | Some i => Ret i
               | None => Raise ValueError
               end
  | VStr s => match y with
              | VStr sub => match String.index 0 sub s with
                            | Some i => Ret i
                            | None => Raise ValueError
                            end
              | _ => Raise TypeError
              end
  | _ => Raise AttributeError
  end.

(** [random.choice(x)] is [x[randbelow(len(x))]]; [draw] is the generator's
    raw draw, reduced below the length. *)
Definition random_choice (draw : nat) (v : value) : outcome value :=
  match v with
  | VList l => match l with
               | [] => Raise IndexError
               | x :: _ => Ret (nth (draw mod List.length l) l x)
               end
  | VStr s => match chars s with
              | [] => Raise IndexError
              | x :: _ => Ret (nth (draw mod String.length s) (chars s) x)
              end
  | VDict d => match d with
               | [] => Raise IndexError
               | _ => Raise KeyError
               end
  | _ => Raise TypeError
  end.

(* ================================================================== *)
(** ** The engine's state, the two files, and the monad of its methods *)

(** The attributes of a [ShowSelector] object. *)
Record state : Type := mkState {
  original_order : value;
  remaining_shows : value;
  watched_shows : value;
  history : value;
  total_shows : nat
}.

(** What a file holds: text [json.load] rejects, or a JSON document. *)
Inductive body : Type :=
| Garbage (text : string)
| Json (v : value).

(** [save_file] is the path [SAVE_FILE], [bak_file] the path
    [Path(SAVE_FILE).with_suffix(".bak")]; [None] is a missing file. *)
Record files : Type := mkFiles {
  save_file : option body;
  bak_file : option body
}.

Record world : Type := mkWorld {
  self : state;
  disk : files
}.

(** A method runs in a world and ends by returning or raising; the world it
    leaves is the one at the return or at the raise. *)
Definition M (A : Type) : Type := world -> outcome A * world.

Definition ret {A} (a : A) : M A := fun w => (Ret a, w).

Definition bind {A B} (m : M A) (k : A -> M B) : M B :=
  fun w =>
    match m w with
    | (Ret a, w') => k a w'
    | (Raise e, w') => (Raise e, w')
    end.

Definition lift {A} (r : outcome A) : M A := fun w => (r, w).

Definition raise {A} (e : exn) : M A := lift (Raise e).

(** [try: m except <handles>: h] *)
Definition try {A} (m : M A) (handles : exn -> bool) (h : M A) : M A :=
  fun w =>
    match m w with
    | (Raise e, w') => if handles e then h w' else (Raise e, w')
    | r => r
    end.

Definition get_self : M state := fun w => (Ret (self w), w).

Definition modify (f : state -> state) : M unit :=
  fun w => (Ret tt, mkWorld (f (self w)) (disk w)).

Declare Scope py_scope.
Delimit Scope py_scope with py.
Notation "x <- m ;; k" := (bind m (fun x => k))
  (at level 61, m at next level, right associativity) : py_scope.
Notation "m ;;; k" := (bind m (fun _ => k))
  (at level 61, right associativity) : py_scope.
Open Scope py_scope.

Definition set_original_order (v : value) : M unit :=
  modify (fun s => mkState v (remaining_shows s) (watched_shows s) (history s) (total_shows s)).
Definition set_remaining_shows (v : value) : M unit :=
  modify (fun s => mkState (original_order s) v (watched_shows s) (history s) (total_shows s)).
Definition set_watched_shows (v : value) : M unit :=
  modify (fun s => mkState (original_order s) (remaining_shows s) v (history s) (total_shows s)).
Definition set_history (v : value) : M unit :=
  modify (fun s => mkState (original_order s) (remaining_shows s) (watched_shows s) v (total_shows s)).
Definition set_total_shows (n : nat) : M unit :=
  modify (fun s => mkState (original_order s) (remaining_shows s) (watched_shows s) (history s) n).

(** Any exception: [except Exception]. *)
Definition any_exception (e : exn) : bool := true.

(* ================================================================== *)
(** ** [save_progress] *)

Definition dump (s : state) : value :=
  VDict [("original_order", original_order s);
         ("remaining", remaining_shows s);
         ("watched", watched_shows s);
         ("history", history s)].

Definition save_progress : M unit :=
  fun w => (Ret tt, mkWorld (self w) (mkFiles (Some (Json (dump (self w)))) (bak_file (disk w)))).

(* ================================================================== *)
(** ** [add_show] *)

(** [any(show_name.lower() == s.lower() for s in items)], left to right,
    stopping at the first match. *)
Fixpoint any_lower_eq (needle : string) (items : list value) : outcome bool :=
  match items with
  | [] => Ret false
  | s :: rest =>
      obind (str_lower s) (fun t =>
        if String.eqb needle t then Ret true else any_lower_eq needle rest)
  end.

Definition add_show (show_name : string) : M bool :=
  let show_name := strip show_name in
  if String.eqb show_name "" then ret false
  else
    s <- get_self ;;
    items <- lift (py_iter (original_order s)) ;;
    found <- lift (any_lower_eq (lower show_name) items) ;;
    if (found : bool) then ret false
    else
      o <- lift (list_append (original_order s) (VStr show_name)) ;;
      set_original_order o ;;;
      s <- get_self ;;
      r <- lift (list_append (remaining_shows s) (VStr show_name)) ;;
      set_remaining_shows r ;;;
      s <- get_self ;;
      n <- lift (py_len (original_order s)) ;;
      set_total_shows n ;;;
      save_progress ;;;
      ret true.

(* ================================================================== *)
(** ** [select_show] *)

(** The dictionary [{"show": .., "timestamp": .., "action": "watched"}]. *)
Definition selection (selected : value) (now : string) : value :=
  VDict [("show", selected); ("timestamp", VStr now); ("action", VStr "watched")].

Definition select_show (draw : nat) (now : string) : M value :=
  s <- get_self ;;
  if negb (truthy (remaining_shows s)) then ret VNone
  else
    selected <- lift (random_choice draw (remaining_shows s)) ;;
    let sel := selection selected now in
    w <- lift (list_append (watched_shows s) sel) ;;
    set_watched_shows w ;;;
    s <- get_self ;;
    r <- lift (list_remove (remaining_shows s) selected) ;;
    set_remaining_shows r ;;;
    s <- get_self ;;
    h <- lift (list_append (history s) sel) ;;
    set_history h ;;;
    save_progress ;;;
    ret sel.

(* ================================================================== *)
(** ** [undo_last] *)

(** The [for idx, show in enumerate(..)] loop: [Some idx] at the [break],
    [None] when the loop runs to its [else]. *)
Fixpoint scan_insert_index (order : value) (original_index : nat)
    (shows : list value) (idx : nat) : outcome (option nat) :=
  match shows with
  | [] => Ret None
  | show :: rest =>
      obind (py_index order show) (fun i =>
        if original_index <? i then Ret (Some idx)
        else scan_insert_index order original_index rest (S idx))
  end.

Definition is_ValueError (e : exn) : bool :=
  match e with
  | ValueError | JSONDecodeError => true
  | _ => false
  end.

Definition undo_last : M value :=
  s <- get_self ;;
  if negb (truthy (history s)) then ret VNone
  else
    p <- lift (list_pop (history s)) ;;
    let last_selection := fst p in
    set_history (snd p) ;;;
    show_to_restore <- lift (py_getitem last_selection "show") ;;
    s <- get_self ;;
    original_index <-
      try (lift (py_index (original_order s) show_to_restore))
          is_ValueError
          (lift (py_len (original_order s))) ;;
    shows <- lift (py_iter (remaining_shows s)) ;;
    found <- lift (scan_insert_index (original_order s) original_index shows 0) ;;
    insert_index <-
      match found with
      | Some idx => ret idx
      | None => lift (py_len (remaining_shows s))
      end ;;
    r <- lift (list_insert (remaining_shows s) insert_index show_to_restore) ;;
    set_remaining_shows r ;;;
    s <- get_self ;;
    w <- lift (list_remove (watched_shows s) last_selection) ;;
    set_watched_shows w ;;;
    save_progress ;;;
    ret last_selection.

(* ================================================================== *)
(** ** [get_progress] *)

Record progress : Type := mkProgress {
  watched : nat;
  remaining : nat;
  total : nat;
  percentage : float
}.

(** The float of a length; exact below 2^53. *)
Definition float_of_nat (n : nat) : float :=
  PrimFloat.of_uint63 (Uint63.of_Z (Z.of_nat n)).

(** [a / b] on integers. *)
Definition true_div (a b : nat) : outcome float :=
  if b =? 0 then Raise ZeroDivisionError
  else Ret (PrimFloat.div (float_of_nat a) (float_of_nat b)).

(** The integer nearest to [n / d] for [0 < d], ties to even. *)
Definition round_half_even (n d : Z) : Z :=
  let q := (n / d)%Z in
  let r := (n mod d)%Z in
  if (2 * r <? d)%Z then q
  else if (d <? 2 * r)%Z then (q + 1)%Z
  else if Z.even q then q else (q + 1)%Z.

(** [round(x, 1)]: the exact value of [x] is rounded to one decimal, ties to
    even, and the float nearest to that decimal is returned (exact while
    ten times [x] stays below 2^53). *)
Definition py_round1 (x : float) : float :=
  match Prim2SF x with
  | S754_finite sgn m e =>
      if (0 <=? e)%Z then x
      else
        let tenths := round_half_even (Z.pos m * 10) (2 ^ (- e)) in
        let r := PrimFloat.div (PrimFloat.of_uint63 (Uint63.of_Z tenths)) 10%float in
        if sgn then PrimFloat.opp r else r
  | _ => x
  end.

Definition get_progress : M progress :=
  s <- get_self ;;
  w <- lift (py_len (watched_shows s)) ;;
  r <- lift (py_len (remaining_shows s)) ;;
  p <- (if negb (total_shows s =? 0) then
          w' <- lift (py_len (watched_shows s)) ;;
          q <- lift (true_div w' (total_shows s)) ;;
          ret (py_round1 (PrimFloat.mul q 100%float))
        else ret 0%float) ;;
  ret (mkProgress w r (total_shows s) p).

(** What "rounded to one decimal" asks of a result, stated without
    [round_half_even]: [t] tenths is the decimal nearest to the value
    [m * 2^e] of a float with a negative exponent when ten times the value
    is at most one half away from [t], and exactly one half away only if
    [t] is even. *)
Definition nearest_tenths (m : positive) (e : Z) (t : Z) : Prop :=
  (2 * Z.abs (10 * Z.pos m - t * 2 ^ (- e)) <= 2 ^ (- e))%Z /\
  ((2 * Z.abs (10 * Z.pos m - t * 2 ^ (- e)) = 2 ^ (- e))%Z -> Z.even t = true).


(* ================================================================== *)
(** ** [load_progress] *)

Definition required_keys : list string :=
  ["original_order"; "remaining"; "watched"; "history"].

(** [json.load(open(path))] *)
Definition json_load (f : option body) : outcome value :=
  match f with
  | None => Raise FileNotFoundError
  | Some (Garbage _) => Raise JSONDecodeError
  | Some (Json v) => Ret v
  end.

(** [all(key in data for key in keys)] *)
Fixpoint all_keys_in (keys : list string) (data : value) : outcome bool :=
  match keys with
  | [] => Ret true
  | key :: rest =>
      obind (py_contains data key) (fun b =>
        if (b : bool) then all_keys_in rest data else Ret false)
  end.

(** [isinstance(data[k], list) and ..] over [keys], left to right. *)
Fixpoint all_lists (keys : list string) (data : value) : outcome bool :=
  match keys with
  | [] => Ret true
  | key :: rest =>
      obind (py_getitem data key) (fun x =>
        if is_list x then all_lists rest data else Ret false)
  end.

(** The five assignments that adopt a document. *)
Definition adopt (data : value) : M unit :=
  o <- lift (py_getitem data "original_order") ;;
  set_original_order o ;;;
  r <- lift (py_getitem data "remaining") ;;
  set_remaining_shows r ;;;
  w <- lift (py_getitem data "watched") ;;
  set_watched_shows w ;;;
  h <- lift (py_getitem data "history") ;;
  set_history h ;;;
  s <- get_self ;;
  n <- lift (py_len (original_order s)) ;;
  set_total_shows n.

(** The body of the outer [try], after [json.load]. *)
Definition validate_and_adopt (data : value) : M unit :=
  present <- lift (all_keys_in required_keys data) ;;
  if negb present then raise KeyError
  else
    typed <- lift (all_lists required_keys data) ;;
    if negb typed then raise ValueError
    else adopt data.

(** [except (json.JSONDecodeError, KeyError, ValueError)] *)
Definition is_corruption (e : exn) : bool :=
  match e with
  | JSONDecodeError | KeyError | ValueError => true
  | _ => false
  end.

(** [Path(SAVE_FILE).rename(backup_file)], guarded by [exists()]. *)
Definition backup_corrupted : M unit :=
  fun w =>
    match save_file (disk w) with
    | Some b => (Ret tt, mkWorld (self w) (mkFiles None (Some b)))
    | None => (Ret tt, w)
    end.

(** The inner [try] on the backup file: [true] at its [return], [false]
    when the file is missing or the block raised.  The local variable
    [required_keys] is assigned in the outer [try] after [json.load];
    [keys_bound] tells whether that assignment was reached. *)
Definition load_backup (keys_bound : bool) : M bool :=
  try (fun w =>
         match bak_file (disk w) with
         | Some _ =>
             (backup_data <- lift (json_load (bak_file (disk w))) ;;
              keys <- (if keys_bound then ret required_keys
                       else raise UnboundLocalError) ;;
              present <- lift (all_keys_in keys backup_data) ;;
              if negb present then raise KeyError
              else adopt backup_data ;;; ret true) w
         | None => (Ret false, w)
         end)
      any_exception
      (ret false).

(** [data.get(key, []) if data else []] *)
Definition salvage (data : value) (key : string) : outcome value :=
  if truthy data then dict_get data key else Ret (VList []).

(** [[s["show"] for s in records]] *)
Fixpoint show_items (records : list value) : outcome (list value) :=
  match records with
  | [] => Ret []
  | s :: rest =>
      obind (py_getitem s "show") (fun x =>
        obind (show_items rest) (fun xs => Ret (x :: xs)))
  end.

(** The de-duplication loop: [seen] holds the lower-cased names met so far,
    [acc] is [recovered_order]. *)
Fixpoint dedup_lower (shows : list value) (seen : list string)
    (acc : list value) : outcome (list value) :=
  match shows with
  | [] => Ret acc
  | show :: rest =>
      obind (str_lower show) (fun k =>
        if existsb (String.eqb k) seen then dedup_lower rest seen acc
        else dedup_lower rest (k :: seen) (acc ++ [show]))
  end.

(** [x in order] for a list [order]. *)
Definition list_contains (order : list value) (x : value) : bool :=
  existsb (fun e => py_eq e x) order.

(** [[s for s in records if s["show"] in order]] *)
Fixpoint keep_known (order : list value) (records : list value)
  : outcome (list value) :=
  match records with
  | [] => Ret []
  | s :: rest =>
      obind (py_getitem s "show") (fun x =>
        obind (keep_known order rest) (fun kept =>
          Ret (if list_contains order x then s :: kept else kept)))
  end.

Definition names (l : list string) : value := VList (map VStr l).

(** The second inner [try]: salvage what the parsed document offers. *)
Definition data_recovery (data : value) (initial_shows : list string) : M unit :=
  remaining <- lift (salvage data "remaining") ;;
  watched <- lift (salvage data "watched") ;;
  history <- lift (salvage data "history") ;;
  records <- lift (py_iter watched) ;;
  watched_names <- lift (show_items records) ;;
  all_shows <- lift (list_add remaining watched_names) ;;
  recovered_order <- lift (dedup_lower (all_shows ++ map VStr initial_shows) [] []) ;;
  set_original_order (VList recovered_order) ;;;
  set_remaining_shows remaining ;;;
  set_watched_shows watched ;;;
  set_history history ;;;
  set_total_shows (List.length recovered_order) ;;;
  s <- get_self ;;
  rs <- lift (py_iter (remaining_shows s)) ;;
  set_remaining_shows (VList (filter (list_contains recovered_order) rs)) ;;;
  s <- get_self ;;
  ws <- lift (py_iter (watched_shows s)) ;;
  kept <- lift (keep_known recovered_order ws) ;;
  set_watched_shows (VList kept).

(** The handler of the second inner [try]. *)
Definition full_reset (initial_shows : list string) : M unit :=
  set_original_order (names initial_shows) ;;;
  set_remaining_shows (names initial_shows) ;;;
  set_watched_shows (VList []) ;;;
  set_history (VList []) ;;;
  set_total_shows (List.length initial_shows).

(** The handler of the outer [try]; [data] is what the local variable holds
    when the handler starts ([None] when [json.load] raised, and
    [required_keys] is unbound then). *)
Definition recover (data : value) (keys_bound : bool)
    (initial_shows : list string) : M unit :=
  backup_corrupted ;;;
  adopted <- load_backup keys_bound ;;
  if (adopted : bool) then ret tt
  else
    try (data_recovery data initial_shows) any_exception
        (full_reset initial_shows) ;;;
    save_progress.

Definition load_progress (initial_shows : list string) : M unit :=
  fun w =>
    match json_load (save_file (disk w)) with
    | Raise e =>
        if is_corruption e then recover VNone false initial_shows w
        else (Raise e, w)
    | Ret data =>
        try (validate_and_adopt data) is_corruption
            (recover data true initial_shows) w
    end.

(** [ShowSelector.__init__] *)
Definition init (shows : list string) (d : files) : outcome unit * world :=
  let w := mkWorld (mkState (names shows) (names shows) (VList []) (VList [])
                            (List.length shows)) d in
  match save_file d with
  | Some _ => load_progress shows w
  | None => (s <- get_self ;;
             n <- lift (py_len (original_order s)) ;;
             set_total_shows n) w
  end.

(* ================================================================== *)
(** ** Sequences of commands *)

Inductive op : Type :=
| Add (show_name : string)
| Select (draw : nat) (now : string)
| Undo.

Definition void {A} (m : M A) : M unit := m ;;; ret tt.

Definition step (o : op) : M unit :=
  match o with
  | Add show_name => void (add_show show_name)
  | Select draw now => void (select_show draw now)
  | Undo => void undo_last
  end.

Fixpoint run (ops : list op) : M unit :=
  match ops with
  | [] => ret tt
  | o :: rest => step o ;;; run rest
  end.

(** The world after constructing the engine with no files on disk. *)
Definition fresh (shows : list string) : world :=
  snd (init shows (mkFiles None None)).

(* ================================================================== *)
(** ** Reading a state *)

(** The elements of an attribute that holds a list. *)
Definition items (v : value) : list value :=
  match v with
  | VList l => l
  | _ => []
  end.

(** The item a selection record names. *)
Definition shown (record : value) : value :=
  match py_getitem record "show" with
  | Ret x => x
  | Raise _ => VNone
  end.

Definition original_items (s : state) : list value := items (original_order s).
Definition remaining_items (s : state) : list value := items (remaining_shows s).
Definition watched_items (s : state) : list value := map shown (items (watched_shows s)).

(** The rank of an item: its first index in [original_order], the length
    when it is absent. *)
Definition rank (s : state) (x : value) : nat :=
  match index_of x (original_items s) with
  | Some i => i
  | None => List.length (original_items s)
  end.

(** RemainingPool and the items of WatchedLog make up OriginalOrder, each
    item once. *)
Definition partition_invariant (s : state) : Prop :=
  NoDup (remaining_items s ++ watched_items s) /\
  (forall x, In x (remaining_items s ++ watched_items s) <-> In x (original_items s)).

(** RemainingPool in increasing rank. *)
Definition sorted_by_rank (s : state) : Prop :=
  StronglySorted lt (map (rank s) (remaining_items s)).

(** RemainingPool in non-decreasing rank, as a test. *)
Fixpoint nondecreasing (l : list nat) : bool :=
  match l with
  | a :: ((b :: _) as rest) => (a <=? b) && nondecreasing rest
  | _ => true
  end.

(** The state Full-Reset leaves. *)
Definition reset_state (initial_shows : list string) : state :=
  mkState (names initial_shows) (names initial_shows) (VList []) (VList [])
          (List.length initial_shows).

(* ================================================================== *)
(** ** Engines whose lists hold names and selection records

    The states a construction without a save file can reach: every
    attribute is a list, of strings or of records built by [selection]. *)

Record pick : Type := mkPick {
  show : string;
  timestamp : string
}.

Definition record (p : pick) : value := selection (VStr (show p)) (timestamp p).

Definition records (l : list pick) : value := VList (map record l).

Definition pick_eqb (a b : pick) : bool :=
  String.eqb (show a) (show b) && String.eqb (timestamp a) (timestamp b).

Section Typed.
Variable T : Type.
Variable eqb : T -> T -> bool.

(** [l] without the first element equal to [y]. *)
Fixpoint remove1 (y : T) (l : list T) : list T :=
  match l with
  | [] => []
  | x :: l' => if eqb x y then l' else x :: remove1 y l'
  end.

(** The first index of [y] in [l], the length when absent. *)
Fixpoint pos (y : T) (l : list T) : nat :=
  match l with
  | [] => 0
  | x :: l' => if eqb x y then 0 else S (pos y l')
  end.
End Typed.

(** The index of the first rank above [a], the length when there is none. *)
Fixpoint first_above (a : nat) (ranks : list nat) : nat :=
  match ranks with
  | [] => 0
  | b :: rest => if a <? b then 0 else S (first_above a rest)
  end.

Definition insert_at {T} (k : nat) (x : T) (l : list T) : list T :=
  firstn k l ++ x :: skipn k l.

Record engine : Type := mkEngine {
  order : list string;
  pool : list string;
  log : list pick;
  undo : list pick
}.

Definition embed (g : engine) : state :=
  mkState (names (order g)) (names (pool g))
          (records (log g)) (records (undo g))
          (List.length (order g)).

Definition saved (s : state) (d : files) : files :=
  mkFiles (Some (Json (dump s))) (bak_file d).

(** What the three commands do to such an engine; [embed_add],
    [embed_select] and [embed_undo] below prove that the methods do so. *)
Definition engine_add (show_name : string) (g : engine) : engine :=
  let name := strip show_name in
  if String.eqb name "" || existsb (fun x => String.eqb (lower name) (lower x)) (order g)
  then g
  else mkEngine (order g ++ [name]) (pool g ++ [name]) (log g) (undo g).

Definition engine_select (draw : nat) (now : string) (g : engine) : engine :=
  match pool g with
  | [] => g
  | x :: _ =>
      let selected := nth (draw mod List.length (pool g)) (pool g) x in
      let p := mkPick selected now in
      mkEngine (order g) (remove1 String.eqb selected (pool g))
               (log g ++ [p]) (undo g ++ [p])
  end.

Definition engine_undo (g : engine) : engine :=
  match rev (undo g) with
  | [] => g
  | p :: _ =>
      let ranks := map (fun y => pos String.eqb y (order g)) (pool g) in
      let k := first_above (pos String.eqb (show p) (order g)) ranks in
      mkEngine (order g) (insert_at k (show p) (pool g))
               (remove1 pick_eqb p (log g)) (removelast (undo g))
  end.

Definition engine_step (o : op) (g : engine) : engine :=
  match o with
  | Add show_name => engine_add show_name g
  | Select draw now => engine_select draw now g
  | Undo => engine_undo g
  end.

(** The invariant of such engines. *)
Definition consistent (g : engine) : Prop :=
  Permutation (pool g ++ map show (log g)) (order g) /\
  Permutation (log g) (undo g).

(** The pool in strictly increasing rank. *)
Definition ranked (g : engine) : Prop :=
  StronglySorted lt (map (fun y => pos String.eqb y (order g)) (pool g)).

(** The pool in non-decreasing rank. *)
Definition ordered (g : engine) : Prop :=
  StronglySorted le (map (fun y => pos String.eqb y (order g)) (pool g)).

Definition engine_run (ops : list op) (g : engine) : engine :=
  fold_left (fun g o => engine_step o g) ops g.

(** The engine a construction without a save file builds. *)
Definition engine_init (shows : list string) : engine :=
  mkEngine shows shows [] [].

(** A seed list that names one show twice. *)
Definition A_B_A : list string := ["A"; "B"; "A"].

(** Case-insensitive de-duplication, first occurrence kept. *)
Fixpoint dedup_seen (seen : list string) (l : list string) : list string :=
  match l with
  | [] => []
  | x :: rest =>
      if existsb (String.eqb (lower x)) seen then dedup_seen seen rest
      else x :: dedup_seen (lower x :: seen) rest
  end.

Definition dedup_ci (l : list string) : list string := dedup_seen [] l.

(** The state Data-Recovery leaves when the salvaged pool is the list of
    names [rem], the salvaged log is the list [ws] whose records name the
    shows [shows], and the salvaged history is [h]: OriginalOrder is the
    de-duplicated concatenation, the pool and the log keep the entries whose
    item is an element of it. *)
Definition recovered_state (rem : list string) (ws : list value)
    (shows : list string) (h : value) (seed : list string) : state :=
  let merged := dedup_ci (rem ++ shows ++ seed) in
  mkState (names merged)
          (names (filter (fun x => existsb (fun y => String.eqb y x) merged) rem))
          (VList (filter (fun s => list_contains (map VStr merged) (shown s)) ws))
          h
          (List.length merged).






(** The attributes [__init__] sets before it looks for a save file. *)
Definition initial_state (shows : list string) : state :=
  mkState (names shows) (names shows) (VList []) (VList []) (List.length shows).

(** A string of white space only. *)
Fixpoint all_space (s : string) : bool :=
  match s with
  | EmptyString => true
  | String c s' => is_space c && all_space s'
  end.

Definition starts_with_space (s : string) : bool :=
  match s with
  | EmptyString => false
  | String c _ => is_space c
  end.

Fixpoint ends_with_space (s : string) : bool :=
  match s with
  | EmptyString => false
  | String c EmptyString => is_space c
  | String _ s' => ends_with_space s'
  end.

(* ================================================================== *)
(** ** Further readings of a state and of the files *)

(** The total count is the length of OriginalOrder. *)
Definition count_consistent (s : state) : Prop :=
  py_len (original_order s) = Ret (total_shows s).

(** The files allow the engine built from [seed] to be rebuilt: there is
    no backup file, and either nothing was saved yet and the attributes are
    the initial ones, or the save file holds the attributes. *)
Definition resumable (seed : list string) (w : world) : Prop :=
  bak_file (disk w) = None /\
  ((save_file (disk w) = None /\ self w = initial_state seed) \/
   save_file (disk w) = Some (Json (dump (self w)))).

Definition is_dict (v : value) : bool :=
  match v with VDict _ => true | _ => false end.

(** A run of selections, each with its draw and its timestamp. *)
Definition selects (picks : list (nat * string)) : list op :=
  map (fun p => Select (fst p) (snd p)) picks.

Fixpoint nodupb (l : list string) : bool :=
  match l with
  | [] => true
  | x :: rest => negb (existsb (String.eqb x) rest) && nodupb rest
  end.

(* ================================================================== *)
(** ** [main]'s seed list *)

(** The list [initial_shows] that [main] passes to [ShowSelector]. *)
Definition initial_shows : list string :=
  ["The Sopranos"; "Breaking Bad"; "Oz"; "Better Call Saul"; "The Wire";
   "Game of Thrones"; "House of Cards"; "Boardwalk Empire"; "Justified";
   "Dexter"; "The Leftovers"; "Homeland"; "Rome"; "Mad Men";
   "Sons of Anarchy"; "Lost"; "Hannibal"; "Six Feet Under"; "The Office";
   "MINDHUNTER"; "Louie"; "Deadwood"; "Twin Peaks"; "Person of Interest";
   "House"; "True Detective"; "Seinfeld"; "Mr. Robot"; "Silicon Valley";
   "Severance"; "Fringe"; "Curb Your Enthusiasm"; "Succession";
   "The Americans"; "Treme"; "Fargo"; "BoJack Horseman"; "Narcos"; "Atlanta";
   "Mr Inbetween"; "The Crown"; "Black Mirror"; "Dark"; "The Newsroom";
   "It's Always Sunny in Philadelphia"; "Prison Break"; "The White Lotus";
   "Fleabag"; "Rick and Morty"; "House of the Dragon"].

(* ================================================================== *)
(** ** [display_progress_bar] *)

Inductive cell : Type :=
| Filled
| Blank.

(** [round(x)]: the integer nearest to the exact value of [x], ties to
    even; [None] where Python raises (the infinities and NaN). *)
Definition py_round0 (x : float) : option Z :=
  match Prim2SF x with
  | S754_zero _ => Some 0%Z
  | S754_finite sgn m e =>
      let n := if (0 <=? e)%Z then (Z.pos m * 2 ^ e)%Z
               else round_half_even (Z.pos m) (2 ^ (- e)) in
      Some (if sgn then (- n)%Z else n)
  | _ => None
  end.

(** [int(round(percentage / (100 / 30)))] *)
Definition filled_cells (percentage : float) : option Z :=
  py_round0 (PrimFloat.div percentage
               (PrimFloat.div (float_of_nat 100) (float_of_nat 30))).

(** The bar [display_progress_bar] prints, without the colour codes and the
    text around it: [filled] full blocks, then [30 - filled] dashes; a
    string repeated a negative number of times is empty. *)
Definition display_progress_bar (percentage : float) : option (list cell) :=
  match filled_cells percentage with
  | Some filled =>
      Some (repeat Filled (Z.to_nat filled) ++ repeat Blank (Z.to_nat (30 - filled)))
  | None => None
  end.

(** The float of [d] tenths, the form in which [round(x, 1)] returns a
    percentage. *)
Definition tenth (d : nat) : float :=
  PrimFloat.div (float_of_nat d) 10%float.

Definition filled_of_tenth (d : nat) : Z :=
  match filled_cells (tenth d) with
  | Some k => k
  | None => (-1)%Z
  end.

(** What is checked of the bar at [d] tenths. *)
Definition bar_check (d : nat) : bool :=
  match filled_cells (tenth d) with
  | Some k =>
      (0 <=? k)%Z && (k <=? 30)%Z &&
      Bool.eqb (k =? 0)%Z (d <=? 16) &&
      Bool.eqb (k =? 30)%Z (984 <=? d) &&
      (k <=? filled_of_tenth (S d))%Z
  | None => false
  end.

(* ================================================================== *)
(** ** Save files used as examples *)

(** A save file whose four keys are present but whose [remaining] is a
    number. *)
Definition mistyped_document : value :=
  VDict [("original_order", VList [VStr "A"]);
         ("remaining", VInt 7);
         ("watched", VList []);
         ("history", VList [])].

(** A save file that passes Parse and Validate although its lists do not
    fit together: the pool holds an item OriginalOrder does not know. *)
Definition stray_pool_document : value :=
  VDict [("original_order", VList [VStr "A"]);
         ("remaining", VList [VStr "B"]);
         ("watched", VList [selection (VStr "A") "t"]);
         ("history", VList [selection (VStr "A") "t"])].

(** A save file that passes Parse and Validate with a history record that
    WatchedLog does not hold. *)
Definition stray_history_document : value :=
  VDict [("original_order", VList [VStr "A"]);
         ("remaining", VList []);
         ("watched", VList []);
         ("history", VList [selection (VStr "A") "t"])].

(* ================================================================== *)
(** ** Tactics *)

(** Reduce the projections of a world built by constructors. *)
Ltac fields :=
  cbn [self disk original_order remaining_shows watched_shows history
    total_shows save_file bak_file fst snd negb].

(** Unfold the combinators of the monad, keeping the built-ins folded. *)
Ltac run_method :=
  cbv beta iota delta [bind get_self lift ret raise try set_original_order
    set_remaining_shows set_watched_shows set_history set_total_shows modify
    save_progress void];
  fields.

(** Split on every test a hypothesis, or the goal, still contains. *)
Ltac crunch :=
  repeat match goal with
  | H : (_, _) = (_, _) |- _ => inversion H; subst; clear H
  | H : context [match ?x with _ => _ end] |- _ => destruct x eqn:?; try discriminate
  | H : context [if ?x then _ else _] |- _ => destruct x eqn:?; try discriminate
  end.

Ltac crunch_goal :=
  repeat match goal with
  | |- context [match ?x with _ => _ end] => destruct x eqn:?
  | |- context [if ?x then _ else _] => destruct x eqn:?
  end.

(* ================================================================== *)
(** * Properties *)

(** ** Queries and guards *)

(** C9: with an empty RemainingPool, [select_show] returns [None] and
    leaves the four sequences, the total count and the files as they
    were. *)
Theorem select_show_empty_pool :
  forall (w : world) (draw : nat) (now : string),
    remaining_shows (self w) = VList [] ->
    select_show draw now w = (Ret VNone, w).
Proof.
  intros w draw now Hempty.
  unfold select_show, bind, get_self.
  rewrite Hempty. reflexivity.
Qed.

Lemma select_show_empty_pool_witness :
  remaining_shows (self (snd (run [Select 0 "t1"; Select 0 "t2"] (fresh ["A"; "B"])))) = VList [] /\
  select_show 5 "t3" (snd (run [Select 0 "t1"; Select 0 "t2"] (fresh ["A"; "B"])))
  = (Ret VNone, snd (run [Select 0 "t1"; Select 0 "t2"] (fresh ["A"; "B"]))).
Proof.
  split; [reflexivity | apply select_show_empty_pool; reflexivity].
Defined.


(** The nearest number of tenths is unique: [nearest_tenths] fixes the
    decimal, and so [rounded_to_one_decimal] fixes the result. *)
Lemma nearest_tenths_unique :
  forall m e t t', nearest_tenths m e t -> nearest_tenths m e t' -> t = t'.
Proof.
  intros m e t t' [Hle Htie] [Hle' Htie'].
  assert (Hd : (0 < 2 ^ (- e))%Z).
  { destruct (Z.leb_spec 0 (- e)) as [Hpos | Hneg];
      [apply Z.pow_pos_nonneg; lia|].
    rewrite Z.pow_neg_r in Hle by lia. lia. }
  set (d := (2 ^ (- e))%Z) in *. set (n := (10 * Z.pos m)%Z) in *.
  assert (Hclose : (t' = t \/ t' = t + 1 \/ t = t' + 1)%Z) by nia.
  destruct Hclose as [-> | [-> | ->]]; [reflexivity | exfalso | exfalso].
  - assert (Ha : (2 * Z.abs (n - t * d) = d)%Z) by nia.
    assert (Hb : (2 * Z.abs (n - (t + 1) * d) = d)%Z) by nia.
    specialize (Htie Ha). specialize (Htie' Hb).
    replace (t + 1)%Z with (Z.succ t) in Htie' by lia.
    rewrite Z.even_succ, <- Z.negb_even, Htie in Htie'. discriminate.
  - assert (Ha : (2 * Z.abs (n - t' * d) = d)%Z) by nia.
    assert (Hb : (2 * Z.abs (n - (t' + 1) * d) = d)%Z) by nia.
    specialize (Htie' Ha). specialize (Htie Hb).
    replace (t' + 1)%Z with (Z.succ t') in Htie by lia.
    rewrite Z.even_succ, <- Z.negb_even, Htie' in Htie. discriminate.
Qed.




(** One of three watched: 33.3 percent, from 333 tenths; no other number
    of tenths is nearest.  A tie, 12.25, goes to the even tenth. *)
Example get_progress_third :
  exists w, get_progress (snd (run [Select 1 "t"] (fresh ["A"; "B"; "C"])))
            = (Ret (mkProgress 1 2 3 33.3%float), w).
Proof. eexists. vm_compute. reflexivity. Qed.

Example third_is_333_tenths :
  Prim2SF (PrimFloat.mul (PrimFloat.div (float_of_nat 1) (float_of_nat 3)) 100%float)
  = S754_finite false 4691249611844266 (-47) /\
  nearest_tenths 4691249611844266 (-47) 333 /\
  ~ nearest_tenths 4691249611844266 (-47) 334 /\
  PrimFloat.div (PrimFloat.of_uint63 (Uint63.of_Z 333)) 10%float = 33.3%float.
Proof.
  split; [vm_compute; reflexivity|].
  split; [split; [vm_compute; discriminate | vm_compute; discriminate]|].
  split; [|vm_compute; reflexivity].
  intros [Hle _]. vm_compute in Hle. apply Hle. reflexivity.
Qed.

Example py_round1_tie :
  py_round1 12.25%float = 12.2%float /\ py_round1 18.75%float = 18.8%float.
Proof. split; vm_compute; reflexivity. Qed.

(** ** [lower] and [strip] on the code points below 256 *)

(** The code points [lower_char] changes are the ones [str.lower] changes,
    [[n for n in range(256) if chr(n).lower() != chr(n)]], and each goes
    to the code point 32 above, as [ord(chr(n).lower())] does. *)
Lemma lower_char_table :
  filter (fun n => negb (nat_of_ascii (lower_char (ascii_of_nat n)) =? n)) (seq 0 256)
  = seq 65 26 ++ seq 192 23 ++ seq 216 7 /\
  forallb (fun n => (nat_of_ascii (lower_char (ascii_of_nat n)) =? n) ||
                    (nat_of_ascii (lower_char (ascii_of_nat n)) =? n + 32))
          (seq 0 256) = true.
Proof. split; vm_compute; reflexivity. Qed.

(** The code points [strip] removes are the ones of [str.isspace],
    [[n for n in range(256) if chr(n).isspace()]]. *)
Lemma is_space_table :
  filter (fun n => is_space (ascii_of_nat n)) (seq 0 256)
  = [9; 10; 11; 12; 13; 28; 29; 30; 31; 32; 133; 160].
Proof. vm_compute. reflexivity. Qed.

Lemma lower_idempotent : forall s, lower (lower s) = lower s.
Proof.
  assert (Hc : forall c, lower_char (lower_char c) = lower_char c).
  { intros c. rewrite <- (ascii_nat_embedding c).
    pose proof (nat_ascii_bounded c) as Hb.
    generalize dependent (nat_of_ascii c). intros n Hb.
    do 256 (destruct n as [|n]; [vm_compute; reflexivity|]). lia. }
  induction s as [|c s IH]; simpl; [reflexivity|].
  rewrite Hc, IH. reflexivity.
Qed.

(** Accented capitals fold like the letters A-Z, and the no-break space
    and the next-line character are trimmed like blanks. *)
Example lower_accented :
  lower Ecole = ecole /\ lower ecole = ecole /\ lower "MINDHUNTER" = "mindhunter".
Proof. repeat split. Qed.

Example strip_latin_spaces :
  strip (String (ascii_of_nat 160) (String (ascii_of_nat 9)
           ("Oz" ++ String (ascii_of_nat 133) " "))) = "Oz".
Proof. reflexivity. Qed.

Example add_show_accented_duplicate :
  add_show ecole (fresh [Ecole]) = (Ret false, fresh [Ecole]).
Proof. reflexivity. Qed.

Example dedup_lower_accented :
  dedup_lower (map VStr [Ecole; ecole]) [] [] = Ret [VStr Ecole].
Proof. reflexivity. Qed.

(** ** [strip] trims *)

Lemma lstrip_split :
  forall s, exists pre,
    s = (pre ++ lstrip s)%string /\ all_space pre = true /\
    starts_with_space (lstrip s) = false.
Proof.
  induction s as [|c s IH]; simpl.
  - exists EmptyString. auto.
  - destruct (is_space c) eqn:Hc.
    + destruct IH as (pre & Heq & Hsp & Hst).
      exists (String c pre). simpl. rewrite Hc, Hsp, <- Heq. auto.
    + exists EmptyString. simpl. auto.
Qed.

Lemma rstrip_split :
  forall s, exists post,
    s = (rstrip s ++ post)%string /\ all_space post = true /\
    ends_with_space (rstrip s) = false /\
    (starts_with_space s = false -> starts_with_space (rstrip s) = false).
Proof.
  induction s as [|c s IH]; simpl.
  - exists EmptyString. auto.
  - destruct IH as (post & Heq & Hsp & Hend & _).
    destruct (rstrip s) as [|c' t] eqn:Hr.
    + destruct (is_space c) eqn:Hc.
      * exists (String c post). simpl in *. rewrite Hc, Hsp, <- Heq.
        repeat split; auto.
      * exists post. simpl in *. subst post. rewrite Hc. auto.
    + exists post. simpl in *. rewrite <- Heq. auto.
Qed.

Lemma strip_trims :
  forall s, exists pre post,
    s = (pre ++ strip s ++ post)%string /\
    all_space pre = true /\ all_space post = true /\
    starts_with_space (strip s) = false /\ ends_with_space (strip s) = false.
Proof.
  intros s. unfold strip.
  destruct (lstrip_split s) as (pre & Heq & Hpre & Hst).
  destruct (rstrip_split (lstrip s)) as (post & Heq' & Hpost & Hend & Hkeep).
  exists pre, post. rewrite <- Heq'. repeat split; auto.
Qed.

(** ** [add_show] *)

Lemma any_lower_eq_names :
  forall needle o,
    any_lower_eq needle (map VStr o) =
    Ret (existsb (fun x => String.eqb needle (lower x)) o).
Proof.
  intros needle o. induction o as [|x o IH]; simpl; [reflexivity|].
  destruct (String.eqb needle (lower x)); simpl; auto.
Qed.

Lemma add_show_names :
  forall (o : list string) (r : list value) (w h : value) (n : nat)
         (d : files) (show_name : string),
    add_show show_name (mkWorld (mkState (names o) (VList r) w h n) d) =
    if String.eqb (strip show_name) "" ||
       existsb (fun x => String.eqb (lower (strip show_name)) (lower x)) o
    then (Ret false, mkWorld (mkState (names o) (VList r) w h n) d)
    else
      let s' := mkState (names (o ++ [strip show_name]))
                        (VList (r ++ [VStr (strip show_name)])) w h
                        (S (List.length o)) in
      (Ret true, mkWorld s' (saved s' d)).
Proof.
  intros o r w h n d show_name. unfold add_show.
  destruct (String.eqb (strip show_name) "") eqn:Hempty; simpl; [reflexivity|].
  unfold bind, get_self, lift; simpl.
  rewrite any_lower_eq_names.
  destruct (existsb _ o); simpl; [reflexivity|].
  unfold names. rewrite map_app, !length_app, !length_map. simpl.
  replace (List.length o + 1) with (S (List.length o)) by lia.
  reflexivity.
Qed.

(** C8: [add_show] works on the name with leading and trailing white space
    trimmed.  It returns [False] and changes nothing when the trimmed name
    is empty or equals an item of OriginalOrder once both are lower-cased;
    otherwise it appends the trimmed name to OriginalOrder and to
    RemainingPool, sets the total count to the new length of OriginalOrder
    (one more than before), writes the save file and returns [True]. *)
Theorem add_show_spec :
  forall (o : list string) (r : list value) (w h : value) (n : nat)
         (d : files) (show_name : string),
    let s := mkState (names o) (VList r) w h n in
    let name := strip show_name in
    (exists pre post,
        show_name = (pre ++ name ++ post)%string /\
        all_space pre = true /\ all_space post = true /\
        starts_with_space name = false /\ ends_with_space name = false) /\
    (name = "" \/ (exists x, In x o /\ lower name = lower x) ->
     add_show show_name (mkWorld s d) = (Ret false, mkWorld s d)) /\
    (name <> "" /\ (forall x, In x o -> lower name <> lower x) ->
     exists s',
       add_show show_name (mkWorld s d) = (Ret true, mkWorld s' (saved s' d)) /\
       original_order s' = names (o ++ [name]) /\
       remaining_shows s' = VList (r ++ [VStr name]) /\
       watched_shows s' = w /\ history s' = h /\
       total_shows s' = List.length (o ++ [name]) /\
       total_shows s' = S (List.length o)).
Proof.
  intros o r w h n d show_name s name. subst s name.
  split; [apply strip_trims|].
  rewrite add_show_names. split.
  - intros [Hempty | (x & Hin & Heq)].
    + rewrite Hempty. reflexivity.
    + replace (existsb _ o) with true; [rewrite orb_true_r; reflexivity|].
      symmetry. apply existsb_exists. exists x. split; [assumption|].
      rewrite Heq. apply String.eqb_refl.
  - intros [Hne Hfresh].
    replace (String.eqb (strip show_name) "") with false
      by (symmetry; apply String.eqb_neq; assumption).
    replace (existsb _ o) with false.
    + simpl. eexists. split; [reflexivity|]. simpl.
      rewrite length_app. simpl. repeat split; lia.
    + symmetry. apply not_true_is_false. intros Hex.
      apply existsb_exists in Hex. destruct Hex as (x & Hin & Heq).
      apply String.eqb_eq in Heq. exact (Hfresh x Hin Heq).
Qed.

Lemma add_show_spec_witness :
  add_show "  breaking BAD " (fresh ["The Sopranos"; "Breaking Bad"])
  = (Ret false, fresh ["The Sopranos"; "Breaking Bad"]) /\
  add_show ecole (fresh [Ecole]) = (Ret false, fresh [Ecole]) /\
  exists s',
    add_show " Oz  " (fresh ["The Sopranos"; "Breaking Bad"])
    = (Ret true, mkWorld s' (saved s' (mkFiles None None))) /\
    original_order s' = names ["The Sopranos"; "Breaking Bad"; "Oz"] /\
    total_shows s' = 3.
Proof.
  pose proof (add_show_spec ["The Sopranos"; "Breaking Bad"]
                (map VStr ["The Sopranos"; "Breaking Bad"]) (VList []) (VList [])
                2 (mkFiles None None)) as H.
  split; [|split].
  - destruct (H "  breaking BAD ") as (_ & Hdup & _).
    apply Hdup. right. exists "Breaking Bad". split; [simpl; auto | reflexivity].
  - destruct (add_show_spec [Ecole] (map VStr [Ecole]) (VList []) (VList [])
                1 (mkFiles None None) ecole) as (_ & Hdup & _).
    apply Hdup. right. exists Ecole. split; [simpl; auto | reflexivity].
  - destruct (H " Oz  ") as (_ & _ & Hnew).
    destruct Hnew as (s' & Hrun & Ho & _ & _ & _ & _ & Ht).
    + split; [discriminate|].
      intros x [Hx | [Hx | []]]; subst x; discriminate.
    + exists s'. auto.
Defined.


(** ** Loading a save file *)

(** C3: the backup is adopted after the key check alone.  The primary
    check rejects [mistyped_document] for its types; the file is renamed to
    the backup path, read again, and adopted, so RemainingPool becomes the
    number 7 and the next [select_show] raises. *)
Theorem backup_adopted_without_type_check :
  fst (validate_and_adopt mistyped_document
         (mkWorld (initial_state ["A"])
                  (mkFiles (Some (Json mistyped_document)) None)))
  = Raise ValueError /\
  init ["A"] (mkFiles (Some (Json mistyped_document)) None) =
    (Ret tt,
     mkWorld (mkState (names ["A"]) (VInt 7) (VList []) (VList []) 1)
             (mkFiles None (Some (Json mistyped_document)))) /\
  fst (select_show 0 "t" (snd (init ["A"] (mkFiles (Some (Json mistyped_document)) None))))
  = Raise TypeError.
Proof. repeat split. Qed.

(** C4: after adopting [stray_pool_document], [undo_last] raises
    [ValueError] from the rank lookup of the pool element "B"; after
    adopting [stray_history_document] it raises [ValueError] from the
    removal of the popped record from WatchedLog.  Both documents are
    adopted by the Parse/Validate/Adopt path. *)
Theorem undo_last_raises_after_adoption :
  (init ["A"] (mkFiles (Some (Json stray_pool_document)) None) =
     (Ret tt,
      mkWorld (mkState (names ["A"]) (names ["B"])
                       (VList [selection (VStr "A") "t"])
                       (VList [selection (VStr "A") "t"]) 1)
              (mkFiles (Some (Json stray_pool_document)) None)) /\
   fst (undo_last (snd (init ["A"] (mkFiles (Some (Json stray_pool_document)) None))))
   = Raise ValueError /\
   scan_insert_index (names ["A"]) 0 [VStr "B"] 0 = Raise ValueError) /\
  (init ["A"] (mkFiles (Some (Json stray_history_document)) None) =
     (Ret tt,
      mkWorld (mkState (names ["A"]) (VList []) (VList [])
                       (VList [selection (VStr "A") "t"]) 1)
              (mkFiles (Some (Json stray_history_document)) None)) /\
   fst (undo_last (snd (init ["A"] (mkFiles (Some (Json stray_history_document)) None))))
   = Raise ValueError /\
   list_remove (VList []) (selection (VStr "A") "t") = Raise ValueError).
Proof. repeat split. Qed.

(* ================================================================== *)
(** ** Lists of one kind of element *)

Section Embedded.
Variable T : Type.
Variable eqb : T -> T -> bool.
Variable inj : T -> value.
Hypothesis eqb_true : forall a b, eqb a b = true <-> a = b.
Hypothesis py_eq_inj : forall a b, py_eq (inj a) (inj b) = eqb a b.

Lemma eqb_same : forall a, eqb a a = true.
Proof. intros a. apply eqb_true. reflexivity. Qed.

Lemma remove_first_inj :
  forall y l, In y l ->
    remove_first (inj y) (map inj l) = Some (map inj (remove1 eqb y l)).
Proof.
  intros y l. induction l as [|x l IH]; simpl; [contradiction|].
  intros Hin. rewrite py_eq_inj.
  destruct (eqb x y) eqn:Hxy; [reflexivity|].
  destruct Hin as [Hx | Hin].
  - subst x. rewrite eqb_same in Hxy. discriminate.
  - rewrite (IH Hin). reflexivity.
Qed.

Lemma index_of_inj_in :
  forall y l, In y l -> index_of (inj y) (map inj l) = Some (pos eqb y l).
Proof.
  intros y l. induction l as [|x l IH]; simpl; [contradiction|].
  intros Hin. rewrite py_eq_inj.
  destruct (eqb x y) eqn:Hxy; [reflexivity|].
  destruct Hin as [Hx | Hin].
  - subst x. rewrite eqb_same in Hxy. discriminate.
  - rewrite (IH Hin). reflexivity.
Qed.

Lemma index_of_inj_out :
  forall y l, ~ In y l -> index_of (inj y) (map inj l) = None.
Proof.
  intros y l. induction l as [|x l IH]; simpl; [reflexivity|].
  intros Hout. rewrite py_eq_inj.
  destruct (eqb x y) eqn:Hxy.
  - apply eqb_true in Hxy. subst x. exfalso. apply Hout. left. reflexivity.
  - rewrite IH; [reflexivity|]. intros Hin. apply Hout. right. exact Hin.
Qed.

Lemma pos_out : forall y l, ~ In y l -> pos eqb y l = List.length l.
Proof.
  intros y l. induction l as [|x l IH]; simpl; [reflexivity|].
  intros Hout. destruct (eqb x y) eqn:Hxy.
  - apply eqb_true in Hxy. subst x. exfalso. apply Hout. left. reflexivity.
  - rewrite IH; [reflexivity|]. intros Hin. apply Hout. right. exact Hin.
Qed.

Lemma pos_in : forall y l, In y l -> pos eqb y l < List.length l.
Proof.
  intros y l. induction l as [|x l IH]; simpl; [contradiction|].
  intros Hin. destruct (eqb x y) eqn:Hxy; [lia|].
  destruct Hin as [Hx | Hin].
  - subst x. rewrite eqb_same in Hxy. discriminate.
  - specialize (IH Hin). lia.
Qed.

Lemma pos_app_in : forall y l l', In y l -> pos eqb y (l ++ l') = pos eqb y l.
Proof.
  intros y l l'. induction l as [|x l IH]; simpl; [contradiction|].
  intros Hin. destruct (eqb x y) eqn:Hxy; [reflexivity|].
  destruct Hin as [Hx | Hin].
  - subst x. rewrite eqb_same in Hxy. discriminate.
  - rewrite (IH Hin). reflexivity.
Qed.

Lemma pos_snoc : forall y l, ~ In y l -> pos eqb y (l ++ [y]) = List.length l.
Proof.
  intros y l. induction l as [|x l IH]; simpl.
  - intros _. rewrite eqb_same. reflexivity.
  - intros Hout. destruct (eqb x y) eqn:Hxy.
    + apply eqb_true in Hxy. subst x. exfalso. apply Hout. left. reflexivity.
    + rewrite IH; [reflexivity|]. intros Hin. apply Hout. right. exact Hin.
Qed.

Lemma pos_injective :
  forall x y l, In x l -> In y l -> pos eqb x l = pos eqb y l -> x = y.
Proof.
  intros x y l. induction l as [|a l IH]; simpl; [contradiction|].
  intros Hx Hy.
  destruct (eqb a x) eqn:Hax, (eqb a y) eqn:Hay; intros Heq; try discriminate.
  - apply eqb_true in Hax, Hay. congruence.
  - injection Heq as Heq.
    destruct Hx as [Hx | Hx]; [subst a; rewrite eqb_same in Hax; discriminate|].
    destruct Hy as [Hy | Hy]; [subst a; rewrite eqb_same in Hay; discriminate|].
    auto.
Qed.

Lemma remove1_permutation :
  forall y l, In y l -> Permutation l (y :: remove1 eqb y l).
Proof.
  intros y l. induction l as [|x l IH]; simpl; [contradiction|].
  intros Hin. destruct (eqb x y) eqn:Hxy.
  - apply eqb_true in Hxy. subst x. apply Permutation_refl.
  - destruct Hin as [Hx | Hin].
    + subst x. rewrite eqb_same in Hxy. discriminate.
    + eapply Permutation_trans; [apply perm_skip, (IH Hin) | apply perm_swap].
Qed.

Lemma remove1_out : forall y l, ~ In y l -> remove1 eqb y l = l.
Proof.
  intros y l. induction l as [|x l IH]; simpl; [reflexivity|].
  intros Hout. destruct (eqb x y) eqn:Hxy.
  - apply eqb_true in Hxy. subst x. exfalso. apply Hout. left. reflexivity.
  - rewrite IH; [reflexivity|]. intros Hin. apply Hout. right. exact Hin.
Qed.

Lemma remove1_last : forall y l, ~ In y l -> remove1 eqb y (l ++ [y]) = l.
Proof.
  intros y l. induction l as [|x l IH]; simpl.
  - intros _. rewrite eqb_same. reflexivity.
  - intros Hout. destruct (eqb x y) eqn:Hxy.
    + apply eqb_true in Hxy. subst x. exfalso. apply Hout. left. reflexivity.
    + rewrite IH; [reflexivity|]. intros Hin. apply Hout. right. exact Hin.
Qed.

Lemma remove1_sorted :
  forall (f : T -> nat) y l,
    StronglySorted lt (map f l) -> StronglySorted lt (map f (remove1 eqb y l)).
Proof.
  intros f y l. induction l as [|x l IH]; simpl; [auto|].
  intros Hs. inversion Hs as [|? ? Hs' Hall]; subst.
  destruct (eqb x y); [assumption|].
  simpl. constructor; [auto|].
  rewrite Forall_forall in *. intros n Hn. apply Hall.
  apply in_map_iff in Hn. destruct Hn as (z & Hz & Hin).
  apply in_map_iff. exists z. split; [assumption|].
  clear - Hin. induction l as [|a l IHl]; simpl in *; [contradiction|].
  destruct (eqb a y); [right; assumption|].
  destruct Hin as [Ha | Hin]; [left; assumption | right; auto].
Qed.
End Embedded.

(** ** Names and selection records as values *)

Lemma py_eq_record : forall a b, py_eq (record a) (record b) = pick_eqb a b.
Proof.
  intros [sa ta] [sb tb]. unfold pick_eqb. simpl.
  destruct (String.eqb sa sb), (String.eqb ta tb); reflexivity.
Qed.

Lemma pick_eqb_true : forall a b, pick_eqb a b = true <-> a = b.
Proof.
  intros [sa ta] [sb tb]. unfold pick_eqb. simpl.
  rewrite andb_true_iff, !String.eqb_eq. split.
  - intros [-> ->]. reflexivity.
  - intros H. injection H as -> ->. auto.
Qed.

Lemma py_eq_str : forall a b, py_eq (VStr a) (VStr b) = String.eqb a b.
Proof. reflexivity. Qed.

Lemma VStr_injective : forall a b, VStr a = VStr b -> a = b.
Proof. intros a b H. injection H as ->. reflexivity. Qed.

Lemma shown_record : forall p, shown (record p) = VStr (show p).
Proof. reflexivity. Qed.

Lemma removelast_map :
  forall (A B : Type) (f : A -> B) l, removelast (map f l) = map f (removelast l).
Proof.
  intros A B f l. induction l as [|x l IH]; simpl; [reflexivity|].
  destruct l as [|y l]; simpl in *; [reflexivity|].
  rewrite IH. reflexivity.
Qed.

Lemma rev_cons_last :
  forall (A : Type) (l : list A) p hs,
    rev l = p :: hs -> l = removelast l ++ [p] /\ removelast l = rev hs.
Proof.
  intros A l p hs H.
  assert (Hl : l = rev hs ++ [p]).
  { rewrite <- (rev_involutive l), H. reflexivity. }
  rewrite Hl at 2 3. rewrite removelast_last. split; [exact Hl | reflexivity].
Qed.

(** ** Rank-ordered insertion *)

Lemma first_above_le : forall a l, first_above a l <= List.length l.
Proof.
  intros a l. induction l as [|b l IH]; simpl; [lia|].
  destruct (a <? b); lia.
Qed.

Lemma insert_at_map :
  forall (A B : Type) (f : A -> B) k x l,
    map f (insert_at k x l) = insert_at k (f x) (map f l).
Proof.
  intros A B f k x l. unfold insert_at.
  rewrite map_app, firstn_map. simpl. rewrite skipn_map. reflexivity.
Qed.

Lemma insert_at_permutation :
  forall (A : Type) k (x : A) l, Permutation (insert_at k x l) (x :: l).
Proof.
  intros A k x l. unfold insert_at.
  rewrite <- (firstn_skipn k l) at 3.
  apply Permutation_sym, Permutation_middle.
Qed.

(** What the insertion position is: everything before it ranks at most
    [a], and the element at it, if any, ranks above [a]. *)
Lemma first_above_split :
  forall a l,
    Forall (fun b => b <= a) (firstn (first_above a l) l) /\
    match skipn (first_above a l) l with
    | [] => True
    | b :: _ => a < b
    end.
Proof.
  intros a l. induction l as [|b l [IH1 IH2]]; simpl; [auto|].
  destruct (a <? b) eqn:Hab; simpl.
  - split; [constructor | apply Nat.ltb_lt; assumption].
  - split; [|exact IH2].
    constructor; [apply Nat.ltb_ge; assumption | exact IH1].
Qed.

Lemma insert_sorted :
  forall a l,
    StronglySorted lt l -> ~ In a l ->
    StronglySorted lt (insert_at (first_above a l) a l).
Proof.
  intros a l Hs. induction Hs as [|b l Hs IH Hall]; intros Hout.
  - unfold insert_at. simpl. constructor; constructor.
  - simpl. destruct (a <? b) eqn:Hab.
    + apply Nat.ltb_lt in Hab. unfold insert_at. simpl.
      constructor; [constructor; assumption|].
      constructor; [assumption|].
      rewrite Forall_forall in *. intros n Hn. specialize (Hall n Hn). lia.
    + apply Nat.ltb_ge in Hab.
      assert (Hlt : b < a).
      { destruct (Nat.eq_dec a b) as [-> | Hne]; [|lia].
        exfalso. apply Hout. left. reflexivity. }
      unfold insert_at in *. simpl. constructor.
      * apply IH. intros Hin. apply Hout. right. exact Hin.
      * rewrite Forall_forall in *. intros n Hn.
        apply in_app_or in Hn. destruct Hn as [Hn | [Hn | Hn]].
        -- apply Hall. rewrite <- (firstn_skipn (first_above a l) l).
           apply in_or_app. left. exact Hn.
        -- subst n. exact Hlt.
        -- apply Hall. rewrite <- (firstn_skipn (first_above a l) l).
           apply in_or_app. right. exact Hn.
Qed.

(** Taking an element out of a strictly sorted list and inserting it by
    rank gives the list back. *)
Lemma insert_after_remove :
  forall (f : string -> nat) x l,
    StronglySorted lt (map f l) -> In x l ->
    insert_at (first_above (f x) (map f (remove1 String.eqb x l))) x
              (remove1 String.eqb x l) = l.
Proof.
  intros f x l. induction l as [|y l IH]; simpl; [contradiction|].
  intros Hs Hin. inversion Hs as [|? ? Hs' Hall]; subst.
  destruct (String.eqb y x) eqn:Hyx.
  - apply String.eqb_eq in Hyx. subst y.
    destruct l as [|z l]; [reflexivity|].
    simpl. inversion Hall as [|? ? Hz _]; subst.
    apply Nat.ltb_lt in Hz. rewrite Hz. reflexivity.
  - destruct Hin as [Hy | Hin].
    + subst y. rewrite String.eqb_refl in Hyx. discriminate.
    + simpl.
      assert (Hlt : f y < f x).
      { rewrite Forall_forall in Hall. apply Hall. apply in_map. exact Hin. }
      replace (f x <? f y) with false by (symmetry; apply Nat.ltb_ge; lia).
      unfold insert_at in *. simpl. rewrite (IH Hs' Hin). reflexivity.
Qed.

(** ** The commands on engines of names and records *)

Lemma py_index_names :
  forall o y,
    try (lift (py_index (names o) (VStr y))) is_ValueError
        (lift (py_len (names o))) =
    lift (Ret (pos String.eqb y o)).
Proof.
  intros o y. unfold try, lift, names, py_index, py_len.
  destruct (in_dec string_dec y o) as [Hin | Hout].
  - rewrite (index_of_inj_in String.eqb VStr String.eqb_eq py_eq_str _ _ Hin).
    reflexivity.
  - rewrite (index_of_inj_out String.eqb VStr String.eqb_eq py_eq_str _ _ Hout).
    simpl. rewrite length_map, (pos_out String.eqb String.eqb_eq _ _ Hout).
    reflexivity.
Qed.

Lemma scan_insert_index_names :
  forall o oi r idx,
    Forall (fun y => In y o) r ->
    scan_insert_index (names o) oi (map VStr r) idx =
    Ret (let k := first_above oi (map (fun y => pos String.eqb y o) r) in
         if k <? List.length r then Some (idx + k) else None).
Proof.
  intros o oi r. induction r as [|y r IH]; intros idx Hall; simpl.
  - reflexivity.
  - inversion Hall as [|? ? Hy Hr]; subst.
    unfold names at 1. simpl.
    rewrite (index_of_inj_in String.eqb VStr String.eqb_eq py_eq_str _ _ Hy).
    simpl. destruct (oi <? pos String.eqb y o) eqn:Hlt.
    + simpl. rewrite Nat.add_0_r. reflexivity.
    + fold (names o). rewrite (IH (S idx) Hr). simpl.
      change (S (first_above oi (map (fun y0 => pos String.eqb y0 o) r)) <? S (List.length r))
        with (first_above oi (map (fun y0 => pos String.eqb y0 o) r) <? List.length r).
      destruct (_ <? List.length r); [|reflexivity].
      f_equal. f_equal. lia.
Qed.

Lemma embed_add :
  forall g d show_name, exists d',
    add_show show_name (mkWorld (embed g) d) =
    (Ret (negb (String.eqb (strip show_name) "" ||
                existsb (fun x => String.eqb (lower (strip show_name)) (lower x)) (order g))),
     mkWorld (embed (engine_add show_name g)) d').
Proof.
  intros [o r w h] d show_name. unfold embed, engine_add. simpl.
  unfold names at 2. rewrite add_show_names.
  destruct (_ || _); simpl.
  - exists d. reflexivity.
  - eexists. unfold names. rewrite !map_app, length_app. simpl.
    replace (List.length o + 1) with (S (List.length o)) by lia.
    reflexivity.
Qed.

Lemma list_remove_names :
  forall y r, In y r ->
    list_remove (names r) (VStr y) = Ret (names (remove1 String.eqb y r)).
Proof.
  intros y r Hin. unfold list_remove, names.
  rewrite (remove_first_inj String.eqb VStr String.eqb_eq py_eq_str _ _ Hin).
  reflexivity.
Qed.

Lemma list_remove_records :
  forall p w, In p w ->
    list_remove (records w) (record p) = Ret (records (remove1 pick_eqb p w)).
Proof.
  intros p w Hin. unfold list_remove, records.
  rewrite (remove_first_inj pick_eqb record pick_eqb_true py_eq_record _ _ Hin).
  reflexivity.
Qed.

Lemma list_append_names :
  forall r y, list_append (names r) (VStr y) = Ret (names (r ++ [y])).
Proof. intros r y. unfold names. rewrite map_app. reflexivity. Qed.

Lemma list_append_records :
  forall w p, list_append (records w) (record p) = Ret (records (w ++ [p])).
Proof. intros w p. unfold records. rewrite map_app. reflexivity. Qed.

Lemma list_insert_names :
  forall r k y, list_insert (names r) k (VStr y) = Ret (names (insert_at k y r)).
Proof.
  intros r k y. unfold names, list_insert.
  rewrite insert_at_map. reflexivity.
Qed.

Lemma list_pop_records :
  forall h p hs, rev h = p :: hs ->
    list_pop (records h) = Ret (record p, records (removelast h)).
Proof.
  intros h p hs Hrev. unfold list_pop, records.
  rewrite <- map_rev, Hrev, removelast_map. reflexivity.
Qed.

Lemma random_choice_names :
  forall draw x r,
    random_choice draw (names (x :: r)) =
    Ret (VStr (nth (draw mod List.length (x :: r)) (x :: r) x)).
Proof.
  intros draw x r. unfold names, random_choice. rewrite length_map.
  cbn [map]. rewrite <- (map_nth VStr). reflexivity.
Qed.

Lemma embed_select :
  forall g d draw now, exists d',
    select_show draw now (mkWorld (embed g) d) =
    (Ret (match pool g with
          | [] => VNone
          | x :: _ => record (mkPick (nth (draw mod List.length (pool g)) (pool g) x) now)
          end),
     mkWorld (embed (engine_select draw now g)) d').
Proof.
  intros [o r w h] d draw now. unfold embed, engine_select.
  cbn [order pool log undo].
  destruct r as [|x r'].
  - exists d. reflexivity.
  - set (r := x :: r').
    assert (Hin : In (nth (draw mod List.length r) r x) r).
    { apply nth_In. apply Nat.mod_upper_bound. discriminate. }
    set (p := mkPick (nth (draw mod List.length r) r x) now).
    unfold select_show. run_method.
    change (truthy (names r)) with true. fields.
    unfold r at 1. rewrite random_choice_names. fold r. fields.
    change (selection (VStr (nth (draw mod List.length r) r x)) now) with (record p).
    rewrite list_append_records. fields.
    rewrite (list_remove_names _ _ Hin). fields.
    rewrite list_append_records. fields.
    eexists. reflexivity.
Qed.

Lemma py_len_names : forall r, py_len (names r) = Ret (List.length r).
Proof. intros r. unfold names, py_len. rewrite length_map. reflexivity. Qed.

Lemma py_index_names_in :
  forall o y, In y o -> py_index (names o) (VStr y) = Ret (pos String.eqb y o).
Proof.
  intros o y Hin. unfold py_index, names.
  rewrite (index_of_inj_in String.eqb VStr String.eqb_eq py_eq_str _ _ Hin).
  reflexivity.
Qed.

Lemma consistent_members :
  forall g, consistent g ->
    Forall (fun y => In y (order g)) (pool g) /\
    (forall p, In p (undo g) -> In p (log g) /\ In (show p) (order g)).
Proof.
  intros g [Hperm Hlog]. split.
  - apply Forall_forall. intros y Hy.
    apply (Permutation_in _ Hperm). apply in_or_app. left. exact Hy.
  - intros p Hp.
    assert (Hin : In p (log g)) by (apply (Permutation_in _ (Permutation_sym Hlog)); exact Hp).
    split; [exact Hin|].
    apply (Permutation_in _ Hperm). apply in_or_app. right.
    apply in_map. exact Hin.
Qed.

Lemma embed_undo :
  forall g d, consistent g -> exists d',
    undo_last (mkWorld (embed g) d) =
    (Ret (match rev (undo g) with
          | [] => VNone
          | p :: _ => record p
          end),
     mkWorld (embed (engine_undo g)) d').
Proof.
  intros g d Hg.
  destruct (consistent_members Hg) as [Hpool Hundo].
  destruct g as [o r w h]. unfold embed, engine_undo in *.
  cbn [order pool log undo] in *.
  destruct (rev h) as [|p hs] eqn:Hrev.
  - assert (Hh : h = []).
    { rewrite <- (rev_involutive h), Hrev. reflexivity. }
    subst h. exists d. reflexivity.
  - destruct (rev_cons_last _ Hrev) as [Hh _].
    assert (Hp : In p h).
    { rewrite Hh. apply in_or_app. right. left. reflexivity. }
    destruct (Hundo p Hp) as [Hpw Hpo].
    unfold undo_last. run_method.
    replace (truthy (records h)) with true
      by (rewrite Hh; destruct (removelast h); reflexivity).
    fields. rewrite (list_pop_records _ Hrev). fields.
    change (py_getitem (record p) "show") with (Ret (VStr (show p))). fields.
    rewrite (py_index_names_in _ _ Hpo). fields.
    cbn [py_iter names]. fold (names o).
    rewrite (scan_insert_index_names _ _ 0 Hpool). cbv zeta.
    set (k := first_above (pos String.eqb (show p) o)
                          (map (fun y => pos String.eqb y o) r)).
    assert (Hk : (if k <? List.length r then Some (0 + k) else None) = Some k
                 \/ ((if k <? List.length r then Some (0 + k) else None) = None
                     /\ k = List.length r)).
    { destruct (k <? List.length r) eqn:Hlt; [left; reflexivity|].
      right. split; [reflexivity|].
      apply Nat.ltb_ge in Hlt.
      pose proof (first_above_le (pos String.eqb (show p) o)
                    (map (fun y => pos String.eqb y o) r)) as Hle.
      rewrite length_map in Hle. fold k in Hle. lia. }
    destruct Hk as [-> | [-> Hlen]].
    + fold (names r). rewrite list_insert_names. fields.
      rewrite (list_remove_records _ _ Hpw). fields.
      eexists. reflexivity.
    + fold (names r). rewrite py_len_names, <- Hlen.
      rewrite list_insert_names. fields.
      rewrite (list_remove_records _ _ Hpw). fields.
      eexists. reflexivity.
Qed.

(** ** Invariants of the commands *)

Lemma consistent_init : forall shows, consistent (engine_init shows).
Proof.
  intros shows. split; simpl; [rewrite app_nil_r|]; apply Permutation_refl.
Qed.

Lemma consistent_step :
  forall o g, consistent g -> consistent (engine_step o g).
Proof.
  intros o g [Hperm Hlog]. destruct o as [show_name | draw now |]; simpl.
  - unfold engine_add. destruct (_ || _); [split; assumption|].
    split; simpl; [|assumption].
    rewrite <- app_assoc.
    eapply Permutation_trans;
      [apply Permutation_app_head, Permutation_app_comm|].
    rewrite app_assoc. apply Permutation_app_tail. exact Hperm.
  - unfold engine_select. destruct (pool g) as [|x r'] eqn:Hpool;
      [split; [rewrite Hpool|]; assumption|].
    rewrite <- Hpool in *.
    set (y := nth (draw mod List.length (pool g)) (pool g) x).
    assert (Hin : In y (pool g)).
    { apply nth_In, Nat.mod_upper_bound. rewrite Hpool. discriminate. }
    split; simpl.
    + rewrite map_app. simpl.
      eapply Permutation_trans; [|exact Hperm].
      eapply Permutation_trans;
        [apply Permutation_app_head, Permutation_app_comm|].
      simpl. eapply Permutation_trans; [apply Permutation_sym, Permutation_middle|].
      apply (Permutation_app_tail (map show (log g))
               (l := y :: remove1 String.eqb y (pool g))).
      apply Permutation_sym, (remove1_permutation String.eqb String.eqb_eq _ _ Hin).
    + apply Permutation_app_tail. exact Hlog.
  - unfold engine_undo. destruct (rev (undo g)) as [|p hs] eqn:Hrev;
      [split; assumption|].
    destruct (rev_cons_last _ Hrev) as [Hh _].
    assert (Hp : In p (log g)).
    { apply (Permutation_in _ (Permutation_sym Hlog)).
      rewrite Hh. apply in_or_app. right. left. reflexivity. }
    pose proof (remove1_permutation pick_eqb pick_eqb_true _ _ Hp) as Hrem.
    split; simpl.
    + eapply Permutation_trans; [|exact Hperm].
      eapply Permutation_trans;
        [apply Permutation_app_tail, insert_at_permutation|].
      simpl. eapply Permutation_trans; [apply Permutation_middle|].
      apply Permutation_app_head.
      apply Permutation_sym. exact (Permutation_map show Hrem).
    + apply Permutation_cons_inv with (a := p).
      eapply Permutation_trans; [apply Permutation_sym, Hrem|].
      eapply Permutation_trans; [exact Hlog|].
      rewrite Hh at 1. apply Permutation_sym, Permutation_cons_append.
Qed.

Lemma add_keeps_distinct :
  forall show_name g, NoDup (order g) -> NoDup (order (engine_add show_name g)).
Proof.
  intros show_name g Hnd. unfold engine_add.
  destruct (String.eqb (strip show_name) "" || _) eqn:Hdup; [assumption|].
  simpl. apply orb_false_iff in Hdup. destruct Hdup as [_ Hnew].
  apply NoDup_app; [assumption | repeat constructor; easy |].
  intros x Hx [Hx' | []]. subst x.
  assert (Hex : existsb (fun x => String.eqb (lower (strip show_name)) (lower x))
                        (order g) = true).
  { apply existsb_exists. exists (strip show_name).
    split; [assumption | apply String.eqb_refl]. }
  congruence.
Qed.

Lemma distinct_step :
  forall o g, NoDup (order g) -> NoDup (order (engine_step o g)).
Proof.
  intros o g Hnd. destruct o as [show_name | draw now |]; simpl.
  - apply add_keeps_distinct. exact Hnd.
  - unfold engine_select. destruct (pool g); assumption.
  - unfold engine_undo. destruct (rev (undo g)); assumption.
Qed.

Lemma sorted_snoc :
  forall l a, StronglySorted lt l -> Forall (fun b => b < a) l ->
              StronglySorted lt (l ++ [a]).
Proof.
  intros l a Hs. induction Hs as [|b l Hs IH Hall]; intros Hlt; simpl.
  - repeat constructor.
  - inversion Hlt as [|? ? Hb Hl]; subst. constructor; [auto|].
    apply Forall_app. split; [assumption | repeat constructor; assumption].
Qed.

Lemma ranked_init : forall shows, NoDup shows -> ranked (engine_init shows).
Proof.
  intros shows. unfold ranked, engine_init. simpl.
  induction shows as [|a l IH]; intros Hnd; simpl; [constructor|].
  inversion Hnd as [|? ? Ha Hl]; subst.
  rewrite String.eqb_refl.
  assert (Hmap : map (fun y => if String.eqb a y then 0 else S (pos String.eqb y l)) l
                 = map S (map (fun y => pos String.eqb y l) l)).
  { rewrite map_map. apply map_ext_in. intros y Hy.
    destruct (String.eqb a y) eqn:Hay; [|reflexivity].
    apply String.eqb_eq in Hay. subst y. contradiction. }
  rewrite Hmap. constructor.
  - specialize (IH Hl). clear - IH.
    induction IH as [|b m Hs IHs Hall]; simpl; constructor; [assumption|].
    rewrite Forall_forall in *. intros n Hn.
    apply in_map_iff in Hn. destruct Hn as (k & <- & Hk).
    specialize (Hall k Hk). lia.
  - apply Forall_forall. intros n Hn.
    apply in_map_iff in Hn. destruct Hn as (k & <- & _). lia.
Qed.

Lemma NoDup_app_disjoint :
  forall (A : Type) (l l' : list A) x,
    NoDup (l ++ l') -> In x l -> In x l' -> False.
Proof.
  intros A l l' x Hnd Hl Hl'.
  apply in_split in Hl'. destruct Hl' as (l1 & l2 & ->).
  rewrite app_assoc in Hnd. apply NoDup_remove_2 in Hnd.
  apply Hnd. apply in_or_app. left. apply in_or_app. left. exact Hl.
Qed.

Lemma add_is_new :
  forall show_name g,
    (String.eqb (strip show_name) "" ||
     existsb (fun x => String.eqb (lower (strip show_name)) (lower x)) (order g))
    = false ->
    ~ In (strip show_name) (order g).
Proof.
  intros show_name g Hdup Hin.
  apply orb_false_iff in Hdup. destruct Hdup as [_ Hnew].
  assert (Hex : existsb (fun x => String.eqb (lower (strip show_name)) (lower x))
                        (order g) = true).
  { apply existsb_exists. exists (strip show_name).
    split; [assumption | apply String.eqb_refl]. }
  congruence.
Qed.

Lemma ranked_step :
  forall o g, consistent g -> NoDup (order g) -> ranked g ->
              ranked (engine_step o g).
Proof.
  intros o g Hg Hnd Hs.
  destruct (consistent_members Hg) as [Hpool Hundo].
  destruct Hg as [Hperm Hlog].
  unfold ranked in *. destruct o as [show_name | draw now |]; simpl.
  - unfold engine_add.
    destruct (String.eqb (strip show_name) "" || _) eqn:Hdup; [assumption|].
    pose proof (add_is_new _ _ Hdup) as Hnew.
    simpl. rewrite map_app. simpl.
    rewrite (pos_snoc String.eqb String.eqb_eq _ _ Hnew).
    assert (Hmap : map (fun y => pos String.eqb y (order g ++ [strip show_name])) (pool g)
                   = map (fun y => pos String.eqb y (order g)) (pool g)).
    { apply map_ext_in. intros y Hy. apply (pos_app_in String.eqb String.eqb_eq).
      rewrite Forall_forall in Hpool. auto. }
    rewrite Hmap. apply sorted_snoc; [assumption|].
    apply Forall_forall. intros n Hn.
    apply in_map_iff in Hn. destruct Hn as (y & <- & Hy).
    apply (pos_in String.eqb String.eqb_eq).
    rewrite Forall_forall in Hpool. auto.
  - unfold engine_select. destruct (pool g) as [|x r'] eqn:Hr;
      [rewrite Hr; exact Hs|].
    cbn [order pool].
    apply remove1_sorted. exact Hs.
  - unfold engine_undo. destruct (rev (undo g)) as [|p hs] eqn:Hrev; [assumption|].
    simpl. rewrite insert_at_map. apply insert_sorted; [assumption|].
    destruct (rev_cons_last _ Hrev) as [Hh _].
    assert (Hp : In p (undo g)).
    { rewrite Hh. apply in_or_app. right. left. reflexivity. }
    destruct (Hundo p Hp) as [Hpw Hpo].
    intros Hin. apply in_map_iff in Hin. destruct Hin as (y & Heq & Hy).
    assert (Hyo : In y (order g)) by (rewrite Forall_forall in Hpool; auto).
    apply (pos_injective String.eqb String.eqb_eq _ _ _ Hyo Hpo) in Heq. subst y.
    apply (NoDup_app_disjoint (pool g) (map show (log g)) (show p)).
    + apply (Permutation_NoDup (Permutation_sym Hperm) Hnd).
    + exact Hy.
    + apply in_map. exact Hpw.
Qed.

(** ** Reachable states *)

Lemma fresh_embed :
  forall shows,
    fresh shows = mkWorld (embed (engine_init shows)) (mkFiles None None).
Proof.
  intros shows. unfold fresh, init. cbn [save_file]. run_method.
  rewrite py_len_names. reflexivity.
Qed.

Lemma step_embed :
  forall o g d, consistent g -> exists d',
    step o (mkWorld (embed g) d) = (Ret tt, mkWorld (embed (engine_step o g)) d').
Proof.
  intros o g d Hg. destruct o as [show_name | draw now |]; simpl; unfold void, bind.
  - destruct (embed_add g d show_name) as [d' ->]. exists d'. reflexivity.
  - destruct (embed_select g d draw now) as [d' ->]. exists d'. reflexivity.
  - destruct (embed_undo d Hg) as [d' ->]. exists d'. reflexivity.
Qed.

Lemma engine_run_invariants :
  forall ops g,
    consistent g ->
    consistent (engine_run ops g) /\
    (NoDup (order g) -> ranked g ->
     NoDup (order (engine_run ops g)) /\ ranked (engine_run ops g)).
Proof.
  induction ops as [|o ops IH]; intros g Hg; simpl; [auto|].
  destruct (IH (engine_step o g) (consistent_step o Hg)) as [Hc Hr].
  split; [exact Hc|]. intros Hnd Hs.
  apply Hr; [apply distinct_step | apply ranked_step]; assumption.
Qed.

Lemma run_embed :
  forall ops g d, consistent g -> exists d',
    run ops (mkWorld (embed g) d) = (Ret tt, mkWorld (embed (engine_run ops g)) d').
Proof.
  induction ops as [|o ops IH]; intros g d Hg; simpl.
  - exists d. reflexivity.
  - destruct (step_embed o d Hg) as [d1 Hstep].
    destruct (IH (engine_step o g) d1 (consistent_step o Hg)) as [d2 Hrun].
    exists d2. unfold bind. rewrite Hstep. exact Hrun.
Qed.

(** Every run of commands on a freshly built engine returns, and ends in
    an engine of names and records that is consistent; when the seed list
    names no show twice, OriginalOrder stays free of repetitions and the
    pool stays in rank order. *)
Lemma reachable :
  forall seed ops, exists g d,
    run ops (fresh seed) = (Ret tt, mkWorld (embed g) d) /\
    consistent g /\
    (NoDup seed -> NoDup (order g) /\ ranked g).
Proof.
  intros seed ops. rewrite fresh_embed.
  pose proof (consistent_init seed) as Hinit.
  destruct (run_embed ops (mkFiles None None) Hinit) as [d Hrun].
  destruct (engine_run_invariants ops Hinit) as [Hc Hr].
  exists (engine_run ops (engine_init seed)), d.
  split; [exact Hrun|]. split; [exact Hc|].
  intros Hnd. apply Hr; [exact Hnd | apply ranked_init; exact Hnd].
Qed.

Lemma rank_embed :
  forall g y, rank (embed g) (VStr y) = pos String.eqb y (order g).
Proof.
  intros g y. unfold rank, original_items, embed, names. simpl.
  destruct (in_dec string_dec y (order g)) as [Hin | Hout].
  - rewrite (index_of_inj_in String.eqb VStr String.eqb_eq py_eq_str _ _ Hin).
    reflexivity.
  - rewrite (index_of_inj_out String.eqb VStr String.eqb_eq py_eq_str _ _ Hout).
    rewrite length_map, (pos_out String.eqb String.eqb_eq _ _ Hout). reflexivity.
Qed.

Lemma watched_items_embed :
  forall g, watched_items (embed g) = map VStr (map show (log g)).
Proof.
  intros g. unfold watched_items, embed, records. simpl.
  rewrite !map_map. apply map_ext. intros p. apply shown_record.
Qed.

Lemma members_embed :
  forall g, consistent g ->
    forall x, In x (remaining_items (embed g) ++ watched_items (embed g)) <->
              In x (original_items (embed g)).
Proof.
  intros g [Hperm _] x. rewrite watched_items_embed.
  unfold remaining_items, original_items, embed, names. simpl.
  rewrite <- map_app. split; intros Hin;
    apply in_map_iff in Hin; destruct Hin as (y & <- & Hy); apply in_map.
  - apply (Permutation_in _ Hperm). exact Hy.
  - apply (Permutation_in _ (Permutation_sym Hperm)). exact Hy.
Qed.

(** For any seed list, repeated names or not, RemainingPool and the items
    of WatchedLog have the members of OriginalOrder after every command. *)
Lemma members_after_every_command :
  forall seed ops,
    fst (run ops (fresh seed)) = Ret tt /\
    (forall x,
        In x (remaining_items (self (snd (run ops (fresh seed)))) ++
              watched_items (self (snd (run ops (fresh seed))))) <->
        In x (original_items (self (snd (run ops (fresh seed)))))).
Proof.
  intros seed ops. destruct (reachable seed ops) as (g & d & -> & Hg & _).
  split; [reflexivity|]. apply members_embed. exact Hg.
Qed.

(** ** The pool and the log partition the original order *)

(** C1, for a seed list that names no show twice: every sequence of
    [add_show], [select_show] and [undo_last] returns, and after it the
    items of RemainingPool together with the items recorded in WatchedLog
    are the items of OriginalOrder, each of them once. *)
Theorem partition_after_every_command :
  forall seed ops,
    NoDup seed ->
    fst (run ops (fresh seed)) = Ret tt /\
    partition_invariant (self (snd (run ops (fresh seed)))).
Proof.
  intros seed ops Hnd.
  destruct (reachable seed ops) as (g & d & -> & Hg & Hr).
  destruct (Hr Hnd) as [Hord _].
  split; [reflexivity|]. split; [|apply members_embed; exact Hg].
  cbn [snd self]. rewrite watched_items_embed.
  unfold remaining_items, embed, names. cbn [remaining_shows items].
  rewrite <- map_app.
  apply Finite.Injective_map_NoDup; [exact VStr_injective|].
  destruct Hg as [Hperm _].
  exact (Permutation_NoDup (Permutation_sym Hperm) Hord).
Qed.

Lemma partition_after_every_command_witness :
  NoDup ["A"; "B"; "C"] /\
  fst (run [Select 1 "t1"; Add "D"; Undo; Select 0 "t2"] (fresh ["A"; "B"; "C"])) = Ret tt /\
  partition_invariant
    (self (snd (run [Select 1 "t1"; Add "D"; Undo; Select 0 "t2"] (fresh ["A"; "B"; "C"])))).
Proof.
  assert (Hnd : NoDup ["A"; "B"; "C"]).
  { repeat constructor; simpl; intuition discriminate. }
  split; [exact Hnd|].
  exact (partition_after_every_command [Select 1 "t1"; Add "D"; Undo; Select 0 "t2"] Hnd).
Defined.

(** C1 as stated fails on a seed list with a repeated name: after one
    [select_show] on the seed [["A"; "A"]] the pool holds "A" and the log
    records "A". *)
Lemma partition_fails_on_repeated_seed :
  fst (run [Select 0 "t"] (fresh ["A"; "A"])) = Ret tt /\
  ~ partition_invariant (self (snd (run [Select 0 "t"] (fresh ["A"; "A"])))).
Proof.
  split; [reflexivity|].
  intros [Hnd _]. vm_compute in Hnd.
  inversion Hnd as [|? ? Hout _]; subst. apply Hout. left. reflexivity.
Qed.

(** ** Undo after select *)

Lemma undo_select_engine :
  forall g draw now,
    consistent g -> NoDup (order g) -> ranked g -> pool g <> [] ->
    engine_undo (engine_select draw now g) = g.
Proof.
  intros [o r w h] draw now [Hperm Hlog] Hnd Hs Hne.
  unfold ranked, engine_select, engine_undo in *. cbn [order pool log undo] in *.
  destruct r as [|x r']; [contradiction|].
  set (r := x :: r') in *.
  set (y := nth (draw mod List.length r) r x).
  assert (Hin : In y r).
  { apply nth_In, Nat.mod_upper_bound. discriminate. }
  cbn [order pool log undo].
  rewrite rev_unit. cbn [show].
  rewrite removelast_last.
  rewrite (insert_after_remove (fun z => pos String.eqb z o) y r Hs Hin).
  rewrite (remove1_last pick_eqb pick_eqb_true); [reflexivity|].
  intros Hlogged.
  apply (NoDup_app_disjoint r (map show w) y).
  - exact (Permutation_NoDup (Permutation_sym Hperm) Hnd).
  - exact Hin.
  - change y with (show (mkPick y now)). apply in_map. exact Hlogged.
Qed.




(** ** The pool is sorted by rank *)

Lemma nondecreasing_sorted :
  forall l, nondecreasing l = true <-> StronglySorted le l.
Proof.
  assert (Hsorted : forall l, nondecreasing l = true <-> Sorted le l).
  { induction l as [|a l IH]; [split; [constructor | reflexivity]|].
    destruct l as [|b l].
    - split; [repeat constructor | reflexivity].
    - cbn [nondecreasing]. rewrite andb_true_iff, Nat.leb_le, IH. split.
      + intros [Hab Hs]. constructor; [exact Hs | constructor; exact Hab].
      + intros Hs. inversion Hs as [|? ? Hs' Hhd]; subst.
        inversion Hhd; subst. auto. }
  intros l. rewrite Hsorted. split.
  - apply Sorted_StronglySorted. intros x y z. apply Nat.le_trans.
  - apply StronglySorted_Sorted.
Qed.

Lemma remove1_ordered :
  forall (f : string -> nat) y l,
    StronglySorted le (map f l) ->
    StronglySorted le (map f (remove1 String.eqb y l)).
Proof.
  intros f y l. induction l as [|x l IH]; simpl; [auto|].
  intros Hs. inversion Hs as [|? ? Hs' Hall]; subst.
  destruct (String.eqb x y); [assumption|].
  simpl. constructor; [auto|].
  rewrite Forall_forall in *. intros n Hn. apply Hall.
  apply in_map_iff in Hn. destruct Hn as (z & Hz & Hin).
  apply in_map_iff. exists z. split; [assumption|].
  clear - Hin. induction l as [|a l IHl]; simpl in *; [contradiction|].
  destruct (String.eqb a y); [right; assumption|].
  destruct Hin as [Ha | Hin]; [left; assumption | right; auto].
Qed.

(** Inserting before the first rank above [a] keeps a non-decreasing list
    non-decreasing, whether or not [a] is in the list already. *)
Lemma insert_ordered :
  forall a l,
    StronglySorted le l ->
    StronglySorted le (insert_at (first_above a l) a l).
Proof.
  intros a l Hs. induction Hs as [|b l Hs IH Hall].
  - unfold insert_at. simpl. constructor; constructor.
  - simpl. destruct (a <? b) eqn:Hab.
    + apply Nat.ltb_lt in Hab. unfold insert_at. simpl.
      constructor; [constructor; assumption|].
      constructor; [lia|].
      rewrite Forall_forall in *. intros n Hn. specialize (Hall n Hn). lia.
    + apply Nat.ltb_ge in Hab.
      unfold insert_at in *. simpl. constructor; [exact IH|].
      rewrite Forall_forall in *. intros n Hn.
      apply in_app_or in Hn. destruct Hn as [Hn | [Hn | Hn]].
      * apply Hall. rewrite <- (firstn_skipn (first_above a l) l).
        apply in_or_app. left. exact Hn.
      * subst n. exact Hab.
      * apply Hall. rewrite <- (firstn_skipn (first_above a l) l).
        apply in_or_app. right. exact Hn.
Qed.

Lemma ordered_snoc :
  forall l a, StronglySorted le l -> Forall (fun b => b <= a) l ->
              StronglySorted le (l ++ [a]).
Proof.
  intros l a Hs. induction Hs as [|b l Hs IH Hall]; intros Hle; simpl.
  - repeat constructor.
  - inversion Hle as [|? ? Hb Hl]; subst. constructor; [auto|].
    apply Forall_app. split; [assumption | repeat constructor; assumption].
Qed.

(** A pool in non-decreasing rank stays so under every command, for any
    OriginalOrder, repeated names or not. *)
Lemma ordered_step :
  forall o g, consistent g -> ordered g -> ordered (engine_step o g).
Proof.
  intros o g Hg Hs.
  destruct (consistent_members Hg) as [Hpool _].
  unfold ordered in *. destruct o as [show_name | draw now |]; simpl.
  - unfold engine_add.
    destruct (String.eqb (strip show_name) "" || _) eqn:Hdup; [assumption|].
    pose proof (add_is_new _ _ Hdup) as Hnew.
    simpl. rewrite map_app. simpl.
    rewrite (pos_snoc String.eqb String.eqb_eq _ _ Hnew).
    assert (Hmap : map (fun y => pos String.eqb y (order g ++ [strip show_name])) (pool g)
                   = map (fun y => pos String.eqb y (order g)) (pool g)).
    { apply map_ext_in. intros y Hy. apply (pos_app_in String.eqb String.eqb_eq).
      rewrite Forall_forall in Hpool. auto. }
    rewrite Hmap. apply ordered_snoc; [assumption|].
    apply Forall_forall. intros n Hn.
    apply in_map_iff in Hn. destruct Hn as (y & <- & Hy).
    apply Nat.lt_le_incl, (pos_in String.eqb String.eqb_eq).
    rewrite Forall_forall in Hpool. auto.
  - unfold engine_select. destruct (pool g) as [|x r'] eqn:Hr;
      [rewrite Hr; exact Hs|].
    cbn [order pool].
    apply remove1_ordered. exact Hs.
  - unfold engine_undo. destruct (rev (undo g)) as [|p hs] eqn:Hrev; [assumption|].
    simpl. rewrite insert_at_map. apply insert_ordered. assumption.
Qed.

Lemma ordered_run :
  forall ops g, consistent g -> ordered g -> ordered (engine_run ops g).
Proof.
  induction ops as [|o ops IH]; intros g Hg Hs; simpl; [exact Hs|].
  apply IH; [apply consistent_step | apply ordered_step]; assumption.
Qed.

Lemma ranks_embed :
  forall g,
    map (rank (embed g)) (remaining_items (embed g)) =
    map (fun y => pos String.eqb y (order g)) (pool g).
Proof.
  intros g. unfold remaining_items, embed at 2, names.
  cbn [remaining_shows items].
  rewrite map_map. apply map_ext. intros y. apply rank_embed.
Qed.

(** C5, for every seed list.  [undo_last] puts the restored item before
    the first pool element whose rank exceeds its own, at the end when
    there is none.  RemainingPool is in non-decreasing rank after every
    command whenever it is so right after construction (the commands never
    break the order; a seed list that names a show again after another
    show starts out of order), and in strictly increasing rank when the
    seed list names no show twice. *)
Theorem pool_sorted_by_rank :
  forall seed ops,
    (nondecreasing (map (rank (self (fresh seed)))
                        (remaining_items (self (fresh seed)))) = true ->
     nondecreasing (map (rank (self (snd (run ops (fresh seed)))))
                        (remaining_items (self (snd (run ops (fresh seed)))))) = true) /\
    (NoDup seed -> sorted_by_rank (self (snd (run ops (fresh seed))))) /\
    (forall last rest,
        rev (items (history (self (snd (run ops (fresh seed)))))) = last :: rest ->
        exists w' pre post,
          undo_last (snd (run ops (fresh seed))) = (Ret last, w') /\
          remaining_items (self (snd (run ops (fresh seed)))) = pre ++ post /\
          remaining_items (self w') = pre ++ shown last :: post /\
          Forall (fun y => rank (self (snd (run ops (fresh seed)))) y <=
                           rank (self (snd (run ops (fresh seed)))) (shown last)) pre /\
          match post with
          | [] => True
          | y :: _ => rank (self (snd (run ops (fresh seed)))) (shown last) <
                      rank (self (snd (run ops (fresh seed)))) y
          end).
Proof.
  intros seed ops. rewrite fresh_embed.
  pose proof (consistent_init seed) as Hinit.
  destruct (run_embed ops (mkFiles None None) Hinit) as [d Hrun].
  destruct (engine_run_invariants ops Hinit) as [Hg Hr].
  rewrite Hrun. cbn [snd self].
  set (g := engine_run ops (engine_init seed)) in *.
  split; [|split].
  - rewrite !ranks_embed, !nondecreasing_sorted.
    intros Hs. exact (ordered_run ops Hinit Hs).
  - intros Hnd.
    destruct (Hr Hnd (ranked_init Hnd)) as [_ Hs].
    unfold sorted_by_rank. rewrite ranks_embed. exact Hs.
  - intros last rest Hrev.
    destruct (embed_undo d Hg) as [d' Hundo].
    unfold embed at 1, records in Hrev. cbn [history items] in Hrev.
    rewrite <- map_rev in Hrev.
    destruct (rev (undo g)) as [|p hs] eqn:Hu; [discriminate|].
    cbn [map] in Hrev. injection Hrev as <- _.
    set (k := first_above (pos String.eqb (show p) (order g))
                          (map (fun y => pos String.eqb y (order g)) (pool g))).
    exists (mkWorld (embed (engine_undo g)) d'),
           (map VStr (firstn k (pool g))), (map VStr (skipn k (pool g))).
    split; [exact Hundo|].
    rewrite shown_record, rank_embed.
    destruct (first_above_split (pos String.eqb (show p) (order g))
                (map (fun y => pos String.eqb y (order g)) (pool g))) as [Hpre Hpost].
    fold k in Hpre, Hpost. rewrite firstn_map in Hpre. rewrite skipn_map in Hpost.
    split; [|split; [|split]].
    + unfold remaining_items, embed, names. cbn [remaining_shows items].
      rewrite <- map_app, firstn_skipn. reflexivity.
    + unfold engine_undo. rewrite Hu.
      unfold remaining_items, embed, names. cbn [remaining_shows items pool].
      fold k. unfold insert_at. rewrite map_app. reflexivity.
    + apply Forall_forall. intros v Hv.
      apply in_map_iff in Hv. destruct Hv as (y & <- & Hy).
      rewrite rank_embed. rewrite Forall_forall in Hpre.
      apply Hpre. apply in_map_iff. exists y. split; [reflexivity | exact Hy].
    + destruct (skipn k (pool g)) as [|y post]; [exact I|].
      cbn [map] in *. rewrite rank_embed. exact Hpost.
Qed.

(** A seed list that repeats a name next to itself: the pool stays in
    non-decreasing rank, and the undone "B" goes back before "C", after
    the two "A".  A seed list without repetition: the pool is in strictly
    increasing rank. *)
Lemma pool_sorted_by_rank_witness :
  (nondecreasing (map (rank (self (fresh ["A"; "A"; "B"; "C"])))
                      (remaining_items (self (fresh ["A"; "A"; "B"; "C"])))) = true /\
   nondecreasing
     (map (rank (self (snd (run [Select 2 "t1"; Select 0 "t2"; Undo; Select 1 "t3"]
                               (fresh ["A"; "A"; "B"; "C"])))))
          (remaining_items
             (self (snd (run [Select 2 "t1"; Select 0 "t2"; Undo; Select 1 "t3"]
                           (fresh ["A"; "A"; "B"; "C"])))))) = true) /\
  (NoDup ["A"; "B"; "C"] /\
   sorted_by_rank
     (self (snd (run [Select 1 "t1"; Select 0 "t2"; Undo] (fresh ["A"; "B"; "C"])))) /\
   remaining_items
     (self (snd (run [Select 1 "t1"; Select 0 "t2"; Undo] (fresh ["A"; "B"; "C"]))))
   = [VStr "A"; VStr "C"]) /\
  (exists w',
      undo_last (snd (run [Select 2 "t1"] (fresh ["A"; "A"; "B"; "C"])))
      = (Ret (selection (VStr "B") "t1"), w') /\
      remaining_items (self w') = [VStr "A"; VStr "A"; VStr "B"; VStr "C"]).
Proof.
  assert (Hnd : NoDup ["A"; "B"; "C"]).
  { repeat constructor; simpl; intuition discriminate. }
  split; [|split].
  - split; [reflexivity|].
    exact (proj1 (pool_sorted_by_rank ["A"; "A"; "B"; "C"]
                    [Select 2 "t1"; Select 0 "t2"; Undo; Select 1 "t3"]) eq_refl).
  - split; [exact Hnd|]. split; [|reflexivity].
    exact (proj1 (proj2 (pool_sorted_by_rank ["A"; "B"; "C"]
                           [Select 1 "t1"; Select 0 "t2"; Undo])) Hnd).
  - destruct (proj2 (proj2 (pool_sorted_by_rank ["A"; "A"; "B"; "C"] [Select 2 "t1"]))
                (selection (VStr "B") "t1") [] eq_refl)
      as (w' & pre & post & Hundo & _).
    exists w'. split; [exact Hundo|].
    change (undo_last (snd (run [Select 2 "t1"] (fresh ["A"; "A"; "B"; "C"]))))
      with (Ret (selection (VStr "B") "t1"),
            mkWorld (mkState (names ["A"; "A"; "B"; "C"]) (names ["A"; "A"; "B"; "C"])
                             (VList []) (VList []) 4)
                    (mkFiles (Some (Json (dump (mkState (names ["A"; "A"; "B"; "C"])
                                                        (names ["A"; "A"; "B"; "C"])
                                                        (VList []) (VList []) 4))))
                             None)) in Hundo.
    injection Hundo as <-. reflexivity.
Defined.

(** C5 as stated fails on a seed list that names a show again after
    another one: right after construction from [A_B_A] the ranks of the
    pool are 0, 1, 0, which is neither increasing nor non-decreasing. *)
Lemma pool_unsorted_on_repeated_seed :
  map (rank (self (fresh A_B_A))) (remaining_items (self (fresh A_B_A))) = [0; 1; 0] /\
  nondecreasing (map (rank (self (fresh A_B_A))) (remaining_items (self (fresh A_B_A)))) = false /\
  ~ sorted_by_rank (self (fresh A_B_A)).
Proof.
  split; [reflexivity|]. split; [reflexivity|].
  unfold sorted_by_rank.
  change (map (rank (self (fresh A_B_A))) (remaining_items (self (fresh A_B_A))))
    with [0; 1; 0].
  intros Hs. inversion Hs as [|? ? Hs' _]; subst.
  inversion Hs' as [|? ? _ Hall]; subst.
  inversion Hall as [|? ? Hlt _]; subst. lia.
Qed.

(** ** Case-insensitive de-duplication *)





Lemma dedup_lower_names :
  forall l seen acc,
    dedup_lower (map VStr l) seen acc = Ret (acc ++ map VStr (dedup_seen seen l)).
Proof.
  induction l as [|x l IH]; intros seen acc; simpl.
  - rewrite app_nil_r. reflexivity.
  - destruct (existsb (String.eqb (lower x)) seen); [apply IH|].
    rewrite IH, <- app_assoc. reflexivity.
Qed.

Lemma list_contains_names :
  forall o x,
    list_contains (map VStr o) (VStr x) = existsb (fun y => String.eqb y x) o.
Proof.
  intros o x. unfold list_contains. induction o as [|y o IH]; simpl; [reflexivity|].
  rewrite IH. reflexivity.
Qed.

Lemma filter_names :
  forall (f : value -> bool) l,
    filter f (map VStr l) = map VStr (filter (fun x => f (VStr x)) l).
Proof.
  intros f l. induction l as [|x l IH]; simpl; [reflexivity|].
  destruct (f (VStr x)); simpl; rewrite IH; reflexivity.
Qed.

Lemma keep_known_shown :
  forall known ws xs,
    show_items ws = Ret xs ->
    keep_known known ws = Ret (filter (fun s => list_contains known (shown s)) ws).
Proof.
  intros known ws. induction ws as [|s ws IH]; intros xs Hxs; simpl; [reflexivity|].
  simpl in Hxs. unfold shown.
  destruct (py_getitem s "show") as [x|e]; simpl in *; [|discriminate].
  destruct (show_items ws) as [ys|e]; simpl in *; [|discriminate].
  rewrite (IH ys eq_refl). simpl. reflexivity.
Qed.

(** ** Data-Recovery and Full-Reset *)

Lemma data_recovery_salvages :
  forall data seed w rem ws shows h,
    salvage data "remaining" = Ret (names rem) ->
    salvage data "watched" = Ret (VList ws) ->
    salvage data "history" = Ret h ->
    show_items ws = Ret (map VStr shows) ->
    data_recovery data seed w =
    (Ret tt, mkWorld (recovered_state rem ws shows h seed) (disk w)).
Proof.
  intros data seed w rem ws shows h Hrem Hws Hh Hshows.
  unfold data_recovery. run_method.
  rewrite Hrem, Hws, Hh. fields.
  cbn [py_iter]. rewrite Hshows.
  unfold names at 1. cbn [list_add].
  rewrite <- !map_app, dedup_lower_names. cbn [app]. fields.
  unfold names at 1. cbn [py_iter].
  rewrite filter_names.
  rewrite (keep_known_shown _ _ Hshows).
  unfold recovered_state, dedup_ci. cbv zeta.
  rewrite <- app_assoc, length_map.
  assert (Hfilter : forall o l,
             filter (fun x => list_contains (map VStr o) (VStr x)) l =
             filter (fun x => existsb (fun y => String.eqb y x) o) l).
  { intros o l. apply filter_ext. intros x. apply list_contains_names. }
  rewrite Hfilter. reflexivity.
Qed.

Lemma backup_corrupted_moves :
  forall s b bak,
    backup_corrupted (mkWorld s (mkFiles (Some b) bak)) =
    (Ret tt, mkWorld s (mkFiles None (Some b))).
Proof. reflexivity. Qed.


Lemma load_backup_missing_key :
  forall s data f,
    all_keys_in required_keys data = Ret false ->
    load_backup true (mkWorld s (mkFiles f (Some (Json data)))) =
    (Ret false, mkWorld s (mkFiles f (Some (Json data)))).
Proof.
  intros s data f Hkeys. unfold load_backup. run_method.
  cbn [json_load]. rewrite Hkeys. reflexivity.
Qed.

Lemma recover_salvages :
  forall data bound seed s b bak rem ws shows h,
    load_backup bound (mkWorld s (mkFiles None (Some b))) =
      (Ret false, mkWorld s (mkFiles None (Some b))) ->
    salvage data "remaining" = Ret (names rem) ->
    salvage data "watched" = Ret (VList ws) ->
    salvage data "history" = Ret h ->
    show_items ws = Ret (map VStr shows) ->
    recover data bound seed (mkWorld s (mkFiles (Some b) bak)) =
    (Ret tt,
     mkWorld (recovered_state rem ws shows h seed)
             (mkFiles (Some (Json (dump (recovered_state rem ws shows h seed))))
                      (Some b))).
Proof.
  intros data bound seed s b bak rem ws shows h Hbak Hrem Hws Hh Hshows.
  unfold recover, bind, try. rewrite backup_corrupted_moves, Hbak.
  rewrite (@data_recovery_salvages data seed _ rem ws shows h Hrem Hws Hh Hshows).
  reflexivity.
Qed.

Lemma recover_resets :
  forall data bound seed w w1 e w2,
    bind backup_corrupted (fun _ => load_backup bound) w = (Ret false, w1) ->
    data_recovery data seed w1 = (Raise e, w2) ->
    recover data bound seed w =
    (Ret tt, mkWorld (reset_state seed) (saved (reset_state seed) (disk w2))).
Proof.
  intros data bound seed w w1 e w2 Hbak Hrec.
  unfold recover, bind, try in *.
  destruct (backup_corrupted w) as [[[]|e0] w0]; [|discriminate].
  rewrite Hbak, Hrec. reflexivity.
Qed.











(** A document that lost two keys: the salvaged names differ in case, and
    the seed list repeats one of them. *)
Example data_recovery_merges :
  snd (init ["b"; "C"]
         (mkFiles (Some (Json (VDict [("remaining", VList [VStr "a"; VStr "A"]);
                                      ("watched", VList [selection (VStr "B") "t"])])))
                  None))
  = mkWorld (mkState (names ["a"; "B"; "C"]) (names ["a"])
                     (VList [selection (VStr "B") "t"]) (VList []) 3)
            (mkFiles
               (Some (Json (dump (mkState (names ["a"; "B"; "C"]) (names ["a"])
                                          (VList [selection (VStr "B") "t"])
                                          (VList []) 3))))
               (Some (Json (VDict [("remaining", VList [VStr "a"; VStr "A"]);
                                   ("watched", VList [selection (VStr "B") "t"])])))).
Proof. reflexivity. Qed.

(** Nothing can be salvaged from a file that did not parse, and
    Data-Recovery does not raise then. *)
Lemma data_recovery_none_returns :
  forall seed w, fst (data_recovery VNone seed w) = Ret tt.
Proof.
  intros seed w.
  rewrite (@data_recovery_salvages VNone seed w [] [] [] (VList []));
    reflexivity.
Qed.



(* ================================================================== *)
(** * Further properties of the code *)

(** ** Saving and loading *)

Lemma init_adopts :
  forall seed d bak o r w h,
    lookup "original_order" d = Some (VList o) ->
    lookup "remaining" d = Some (VList r) ->
    lookup "watched" d = Some (VList w) ->
    lookup "history" d = Some (VList h) ->
    init seed (mkFiles (Some (Json (VDict d))) bak) =
    (Ret tt,
     mkWorld (mkState (VList o) (VList r) (VList w) (VList h) (List.length o))
             (mkFiles (Some (Json (VDict d))) bak)).
Proof.
  intros seed d bak o r w h Ho Hr Hw Hh.
  unfold init. cbn [save_file]. unfold load_progress. cbn [disk save_file json_load].
  unfold try, validate_and_adopt, adopt. run_method.
  cbn [all_keys_in all_lists required_keys py_contains py_getitem obind].
  rewrite Ho, Hr, Hw, Hh. cbn. reflexivity.
Qed.

(** X1: a save file that is a dictionary holding a list under each of the
    four keys is adopted as it is: the four attributes are those lists,
    the total count is the length of [original_order], the seed list plays
    no part, other keys are ignored, and neither file is written or
    renamed. *)
Theorem valid_file_is_adopted :
  forall seed d bak o r w h,
    lookup "original_order" d = Some (VList o) ->
    lookup "remaining" d = Some (VList r) ->
    lookup "watched" d = Some (VList w) ->
    lookup "history" d = Some (VList h) ->
    init seed (mkFiles (Some (Json (VDict d))) bak) =
    (Ret tt,
     mkWorld (mkState (VList o) (VList r) (VList w) (VList h) (List.length o))
             (mkFiles (Some (Json (VDict d))) bak)).
Proof. exact init_adopts. Qed.

Lemma valid_file_is_adopted_witness :
  init ["X"; "Y"]
       (mkFiles (Some (Json (VDict [("version", VInt 2);
                                    ("history", VList []);
                                    ("watched", VList []);
                                    ("remaining", VList [VStr "B"]);
                                    ("original_order", VList [VStr "A"; VStr "B"])])))
                (Some (Garbage "old")))
  = (Ret tt,
     mkWorld (mkState (VList [VStr "A"; VStr "B"]) (VList [VStr "B"]) (VList []) (VList []) 2)
             (mkFiles (Some (Json (VDict [("version", VInt 2);
                                          ("history", VList []);
                                          ("watched", VList []);
                                          ("remaining", VList [VStr "B"]);
                                          ("original_order", VList [VStr "A"; VStr "B"])])))
                      (Some (Garbage "old")))).
Proof.
  exact (@valid_file_is_adopted ["X"; "Y"]
           [("version", VInt 2); ("history", VList []); ("watched", VList []);
            ("remaining", VList [VStr "B"]);
            ("original_order", VList [VStr "A"; VStr "B"])]
           (Some (Garbage "old"))
           [VStr "A"; VStr "B"] [VStr "B"] [] [] eq_refl eq_refl eq_refl eq_refl).
Defined.

(** X2: what [save_progress] writes, [load_progress] reads back: for a
    state whose four attributes are lists, constructing an engine on the
    files left by [save_progress], with any seed list, gives the same four
    lists, with the total count the length of [original_order], and leaves
    the files as they are. *)
Theorem save_load_round_trip :
  forall seed o r w h n d,
    init seed (disk (snd (save_progress
                            (mkWorld (mkState (VList o) (VList r) (VList w) (VList h) n) d))))
    = (Ret tt,
       mkWorld (mkState (VList o) (VList r) (VList w) (VList h) (List.length o))
               (disk (snd (save_progress
                             (mkWorld (mkState (VList o) (VList r) (VList w) (VList h) n) d))))).
Proof.
  intros seed o r w h n d. unfold save_progress. cbn [snd disk self].
  apply init_adopts; reflexivity.
Qed.

(** ** What a command writes *)

Lemma add_show_outcome :
  forall show_name w b w',
    add_show show_name w = (Ret b, w') ->
    (b = false /\ w' = w) \/
    (b = true /\ disk w' = saved (self w') (disk w)).
Proof.
  intros show_name w b w' H. unfold add_show in H.
  destruct (String.eqb (strip show_name) "").
  - inversion H. left. auto.
  - revert H. run_method. intros H. crunch; auto.
Qed.

Lemma select_show_outcome :
  forall draw now w r w',
    select_show draw now w = (Ret r, w') ->
    (r = VNone /\ w' = w) \/
    (r <> VNone /\ disk w' = saved (self w') (disk w)).
Proof.
  intros draw now w r w' H. unfold select_show in H.
  revert H. run_method. intros H. crunch; auto.
  right. split; [discriminate | reflexivity].
Qed.

Lemma undo_last_outcome :
  forall w r w',
    undo_last w = (Ret r, w') ->
    (r = VNone /\ w' = w) \/
    (r <> VNone /\ disk w' = saved (self w') (disk w)).
Proof.
  intros w r w' H. unfold undo_last in H.
  revert H. run_method. intros H. crunch; auto.
  all: right; split; [|reflexivity].
  all: match goal with
       | H : py_getitem _ _ = Ret _ |- _ => unfold py_getitem in H
       end; crunch; discriminate.
Qed.

(** X4: whatever the attributes hold, a command that returns either
    changed nothing at all ([add_show] returning [False], [select_show] and
    [undo_last] returning [None]) or ended by writing the new state to the
    save file, leaving the backup file alone. *)
Theorem commands_save_or_do_nothing :
  forall w,
    (forall show_name b w',
        add_show show_name w = (Ret b, w') ->
        (b = false /\ w' = w) \/
        (b = true /\ disk w' = saved (self w') (disk w))) /\
    (forall draw now r w',
        select_show draw now w = (Ret r, w') ->
        (r = VNone /\ w' = w) \/
        (r <> VNone /\ disk w' = saved (self w') (disk w))) /\
    (forall r w',
        undo_last w = (Ret r, w') ->
        (r = VNone /\ w' = w) \/
        (r <> VNone /\ disk w' = saved (self w') (disk w))).
Proof.
  intros w. split; [|split].
  - intros show_name b w'. apply add_show_outcome.
  - intros draw now r w'. apply select_show_outcome.
  - intros r w'. apply undo_last_outcome.
Qed.

Lemma commands_save_or_do_nothing_witness :
  disk (snd (add_show "B" (fresh ["A"])))
    = saved (self (snd (add_show "B" (fresh ["A"])))) (disk (fresh ["A"])) /\
  snd (add_show " a " (fresh ["A"])) = fresh ["A"] /\
  snd (undo_last (fresh ["A"])) = fresh ["A"].
Proof.
  destruct (commands_save_or_do_nothing (fresh ["A"])) as (Hadd & _ & Hundo).
  split; [|split].
  - destruct (Hadd "B" true (snd (add_show "B" (fresh ["A"]))) eq_refl)
      as [[Hb _] | [_ Hd]]; [discriminate | exact Hd].
  - destruct (Hadd " a " false (snd (add_show " a " (fresh ["A"]))) eq_refl)
      as [[_ Hw] | [Hb _]]; [exact Hw | discriminate].
  - destruct (Hundo VNone (snd (undo_last (fresh ["A"]))) eq_refl)
      as [[_ Hw] | [Hr _]]; [exact Hw | contradiction].
Defined.

Lemma select_show_keeps :
  forall draw now w,
    original_order (self (snd (select_show draw now w))) = original_order (self w) /\
    total_shows (self (snd (select_show draw now w))) = total_shows (self w) /\
    bak_file (disk (snd (select_show draw now w))) = bak_file (disk w).
Proof.
  intros draw now w. unfold select_show. run_method.
  crunch_goal; cbn; auto.
Qed.

Lemma undo_last_keeps :
  forall w,
    original_order (self (snd (undo_last w))) = original_order (self w) /\
    total_shows (self (snd (undo_last w))) = total_shows (self w) /\
    bak_file (disk (snd (undo_last w))) = bak_file (disk w).
Proof.
  intros w. unfold undo_last. run_method.
  repeat (crunch_goal; crunch); cbn; auto.
Qed.

Lemma add_show_keeps :
  forall show_name w,
    watched_shows (self (snd (add_show show_name w))) = watched_shows (self w) /\
    history (self (snd (add_show show_name w))) = history (self w) /\
    bak_file (disk (snd (add_show show_name w))) = bak_file (disk w).
Proof.
  intros show_name w. unfold add_show.
  destruct (String.eqb (strip show_name) ""); [cbn; auto|].
  run_method. crunch_goal; cbn; auto.
Qed.

(** X5: whether they return or raise, and whatever the attributes hold,
    [select_show] and [undo_last] leave [original_order] and the total
    count as they were, [add_show] leaves [watched_shows] and [history] as
    they were, and none of the three touches the backup file. *)
Theorem commands_never_touch :
  forall w,
    (forall draw now,
        original_order (self (snd (select_show draw now w))) = original_order (self w) /\
        total_shows (self (snd (select_show draw now w))) = total_shows (self w) /\
        bak_file (disk (snd (select_show draw now w))) = bak_file (disk w)) /\
    (original_order (self (snd (undo_last w))) = original_order (self w) /\
     total_shows (self (snd (undo_last w))) = total_shows (self w) /\
     bak_file (disk (snd (undo_last w))) = bak_file (disk w)) /\
    (forall show_name,
        watched_shows (self (snd (add_show show_name w))) = watched_shows (self w) /\
        history (self (snd (add_show show_name w))) = history (self w) /\
        bak_file (disk (snd (add_show show_name w))) = bak_file (disk w)).
Proof.
  intros w. split; [|split].
  - intros draw now. apply select_show_keeps.
  - apply undo_last_keeps.
  - intros show_name. apply add_show_keeps.
Qed.

(** ** Restarting *)

Lemma step_resumable :
  forall seed o w w',
    step o w = (Ret tt, w') -> resumable seed w -> resumable seed w'.
Proof.
  intros seed o w w' Hstep [Hbak Hsave].
  destruct o as [show_name | draw now |]; cbn [step] in Hstep;
    unfold void, bind, ret in Hstep.
  - destruct (add_show show_name w) as [[b|e] w1] eqn:Hrun; [|discriminate].
    injection Hstep as <-.
    destruct (@add_show_outcome show_name w b w1 Hrun) as [[_ ->] | [_ Hd]];
      [split; assumption|].
    split; rewrite Hd; [exact Hbak | right; reflexivity].
  - destruct (select_show draw now w) as [[r|e] w1] eqn:Hrun; [|discriminate].
    injection Hstep as <-.
    destruct (@select_show_outcome draw now w r w1 Hrun) as [[_ ->] | [_ Hd]];
      [split; assumption|].
    split; rewrite Hd; [exact Hbak | right; reflexivity].
  - destruct (undo_last w) as [[r|e] w1] eqn:Hrun; [|discriminate].
    injection Hstep as <-.
    destruct (@undo_last_outcome w r w1 Hrun) as [[_ ->] | [_ Hd]];
      [split; assumption|].
    split; rewrite Hd; [exact Hbak | right; reflexivity].
Qed.

Lemma run_resumable :
  forall seed ops w w',
    run ops w = (Ret tt, w') -> resumable seed w -> resumable seed w'.
Proof.
  intros seed ops. induction ops as [|o ops IH]; intros w w' Hrun Hres.
  - injection Hrun as <-. exact Hres.
  - cbn [run] in Hrun. unfold bind in Hrun.
    destruct (step o w) as [[[]|e] w1] eqn:Hstep; [|discriminate].
    exact (IH _ _ Hrun (@step_resumable seed o w w1 Hstep Hres)).
Qed.

(** X3: stopping and starting again loses nothing.  After any sequence of
    commands on an engine built without a save file, building an engine
    again from the files as they then are, with the same seed list,
    returns and gives exactly the attributes and files the first engine
    ended with. *)
Theorem restart_resumes :
  forall seed ops,
    init seed (disk (snd (run ops (fresh seed)))) =
    (Ret tt, snd (run ops (fresh seed))).
Proof.
  intros seed ops.
  destruct (reachable seed ops) as (g & d & Hrun & _).
  assert (Hres : resumable seed (fresh seed)).
  { rewrite fresh_embed. split; [reflexivity|]. left. split; reflexivity. }
  pose proof (@run_resumable seed ops _ _ Hrun Hres) as [Hbak Hsave].
  rewrite Hrun. cbn [snd disk self] in *.
  destruct d as [sf bf]. cbn [save_file bak_file] in *. subst bf.
  destruct Hsave as [[-> Hself] | ->].
  - rewrite Hself. unfold init. cbn [save_file]. run_method.
    rewrite py_len_names. reflexivity.
  - unfold dump, embed at 1 2 3 4.
    cbn [original_order remaining_shows watched_shows history].
    unfold names, records.
    rewrite (@init_adopts seed _ None (map VStr (order g)) (map VStr (pool g))
               (map record (log g)) (map record (undo g))); try reflexivity.
    rewrite length_map. reflexivity.
Qed.

(** ** The total count *)

Lemma add_show_counts :
  forall show_name w b w',
    add_show show_name w = (Ret b, w') ->
    count_consistent (self w) -> count_consistent (self w').
Proof.
  intros show_name w b w' H Hc. unfold add_show in H.
  destruct (String.eqb (strip show_name) "").
  - inversion H. subst. exact Hc.
  - revert H. run_method. intros H. crunch; auto.
Qed.

Lemma init_counts :
  forall seed d w,
    init seed d = (Ret tt, w) -> count_consistent (self w).
Proof.
  intros seed d w H. unfold count_consistent.
  unfold init, load_progress, recover, load_backup, validate_and_adopt, adopt,
    data_recovery, full_reset, backup_corrupted, any_exception in H.
  revert H. run_method. intros H.
  destruct (save_file d) as [b|] eqn:Hfile.
  - crunch; cbn [self original_order total_shows py_len];
      try assumption; try reflexivity; try apply py_len_names.
  - crunch; cbn [self original_order total_shows py_len];
      try assumption; try reflexivity; try apply py_len_names.
Qed.

Lemma step_counts :
  forall o w w',
    step o w = (Ret tt, w') -> count_consistent (self w) -> count_consistent (self w').
Proof.
  intros o w w' Hstep Hc. unfold count_consistent in *.
  destruct o as [show_name | draw now |]; cbn [step] in Hstep;
    unfold void, bind, ret in Hstep.
  - destruct (add_show show_name w) as [[b|e] w1] eqn:Hrun; [|discriminate].
    injection Hstep as <-. exact (@add_show_counts show_name w b w1 Hrun Hc).
  - destruct (select_show_keeps draw now w) as (Ho & Ht & _).
    destruct (select_show draw now w) as [[r|e] w1]; [|discriminate].
    injection Hstep as <-. cbn [snd] in *. rewrite Ho, Ht. exact Hc.
  - destruct (undo_last_keeps w) as (Ho & Ht & _).
    destruct (undo_last w) as [[r|e] w1]; [|discriminate].
    injection Hstep as <-. cbn [snd] in *. rewrite Ho, Ht. exact Hc.
Qed.

(** X6: whatever the files hold, when construction returns the total count
    is [len(original_order)], and it still is after any sequence of
    commands that return. *)
Theorem total_is_length_of_order :
  forall seed d ops w0 w,
    init seed d = (Ret tt, w0) ->
    run ops w0 = (Ret tt, w) ->
    py_len (original_order (self w)) = Ret (total_shows (self w)).
Proof.
  intros seed d ops w0 w Hinit Hrun.
  pose proof (@init_counts seed d w0 Hinit) as Hc. clear Hinit.
  revert w0 Hc Hrun. induction ops as [|o ops IH]; intros w0 Hc Hrun.
  - injection Hrun as <-. exact Hc.
  - cbn [run] in Hrun. unfold bind in Hrun.
    destruct (step o w0) as [[[]|e] w1] eqn:Hstep; [|discriminate].
    exact (IH w1 (@step_counts o w0 w1 Hstep Hc) Hrun).
Qed.

Lemma total_is_length_of_order_witness :
  py_len (original_order
            (self (snd (run [Add "C"; Select 0 "t"]
                            (snd (init ["A"; "B"] (mkFiles (Some (Garbage "{")) None)))))))
  = Ret 3.
Proof.
  exact (@total_is_length_of_order ["A"; "B"] (mkFiles (Some (Garbage "{")) None)
           [Add "C"; Select 0 "t"]
           (snd (init ["A"; "B"] (mkFiles (Some (Garbage "{")) None)))
           (snd (run [Add "C"; Select 0 "t"]
                     (snd (init ["A"; "B"] (mkFiles (Some (Garbage "{")) None)))))
           eq_refl eq_refl).
Defined.

(** ** Save files that are not adopted *)

Lemma all_keys_in_raises :
  forall keys data e, all_keys_in keys data = Raise e -> e = TypeError.
Proof.
  induction keys as [|k keys IH]; intros data e H; simpl in H; [discriminate|].
  destruct (py_contains data k) as [[|]|e'] eqn:Hc; simpl in H.
  - eauto.
  - discriminate.
  - injection H as <-. destruct data; simpl in Hc; congruence.
Qed.

(** X7: construction raises [TypeError] when the save file parses to
    something that is not a dictionary and is not found to lack a key: a
    number, a boolean or [null] (the test [key in data] raises), or a list
    or string that contains all four key names (the subscript
    [data["original_order"]] raises).  Nothing is renamed or written. *)
Theorem init_raises_on_non_dict :
  forall seed bak data,
    is_dict data = false ->
    all_keys_in required_keys data <> Ret false ->
    init seed (mkFiles (Some (Json data)) bak) =
    (Raise TypeError,
     mkWorld (initial_state seed) (mkFiles (Some (Json data)) bak)).
Proof.
  intros seed bak data Hdict Hkeys.
  unfold init. cbn [save_file]. unfold load_progress. cbn [disk save_file json_load].
  unfold try, validate_and_adopt. run_method.
  destruct (all_keys_in required_keys data) as [[|]|e] eqn:Hall.
  - cbn [negb]. destruct data; try discriminate; reflexivity.
  - contradiction.
  - rewrite (all_keys_in_raises _ _ Hall). reflexivity.
Qed.

Lemma init_raises_on_non_dict_witness :
  init ["A"; "B"] (mkFiles (Some (Json VNone)) None) =
    (Raise TypeError,
     mkWorld (initial_state ["A"; "B"]) (mkFiles (Some (Json VNone)) None)) /\
  init ["A"; "B"] (mkFiles (Some (Json (VList (map VStr required_keys)))) None) =
    (Raise TypeError,
     mkWorld (initial_state ["A"; "B"])
             (mkFiles (Some (Json (VList (map VStr required_keys)))) None)).
Proof.
  split.
  - apply init_raises_on_non_dict; [reflexivity | discriminate].
  - apply init_raises_on_non_dict; [reflexivity | discriminate].
Defined.

(** X8: a dictionary that holds the four keys but not a list under each is
    rejected by the first check, renamed to the backup path, read again and
    adopted as it is whenever [len] is defined on its [original_order]: the
    four attributes are its four values, whatever their types, and no save
    file is left. *)
Theorem backup_adoption_skips_type_check :
  forall seed d bak o r w h n,
    lookup "original_order" d = Some o ->
    lookup "remaining" d = Some r ->
    lookup "watched" d = Some w ->
    lookup "history" d = Some h ->
    is_list o && is_list r && is_list w && is_list h = false ->
    py_len o = Ret n ->
    init seed (mkFiles (Some (Json (VDict d))) bak) =
    (Ret tt,
     mkWorld (mkState o r w h n) (mkFiles None (Some (Json (VDict d))))).
Proof.
  intros seed d bak o r w h n Ho Hr Hw Hh Htypes Hlen.
  unfold init. cbn [save_file]. unfold load_progress. cbn [disk save_file json_load].
  unfold try, validate_and_adopt. run_method.
  cbn [all_keys_in all_lists required_keys py_contains py_getitem obind].
  rewrite Ho, Hr, Hw, Hh. cbn [negb obind].
  assert (Hval : (if is_list o
                  then if is_list r
                       then if is_list w
                            then if is_list h then Ret true else Ret false
                            else Ret false
                       else Ret false
                  else Ret false) = Ret false).
  { destruct (is_list o), (is_list r), (is_list w), (is_list h);
      try reflexivity; discriminate. }
  rewrite Hval. cbn [negb is_corruption].
  unfold recover, load_backup, adopt, backup_corrupted, any_exception. run_method.
  cbn [json_load all_keys_in required_keys py_contains py_getitem obind].
  rewrite Ho, Hr, Hw, Hh. cbn [negb obind]. fields. rewrite Hlen. reflexivity.
Qed.

Lemma backup_adoption_skips_type_check_witness :
  init ["X"]
       (mkFiles (Some (Json (VDict [("original_order", VStr "abc");
                                    ("remaining", VNone);
                                    ("watched", VList []);
                                    ("history", VInt 3)])))
                None)
  = (Ret tt,
     mkWorld (mkState (VStr "abc") VNone (VList []) (VInt 3) 3)
             (mkFiles None
                      (Some (Json (VDict [("original_order", VStr "abc");
                                          ("remaining", VNone);
                                          ("watched", VList []);
                                          ("history", VInt 3)]))))).
Proof.
  exact (@backup_adoption_skips_type_check ["X"]
           [("original_order", VStr "abc"); ("remaining", VNone);
            ("watched", VList []); ("history", VInt 3)]
           None
           (VStr "abc") VNone (VList []) (VInt 3) 3
           eq_refl eq_refl eq_refl eq_refl eq_refl eq_refl).
Defined.

(** X9: a save file that parses to a non-empty list or string lacking one
    of the four key names cannot be salvaged ([data.get] does not exist):
    construction returns with the attributes reset to the seed list, that
    state written to the save file, and the rejected file kept as the
    backup. *)
Theorem non_dict_document_resets :
  forall seed bak data,
    is_dict data = false ->
    truthy data = true ->
    all_keys_in required_keys data = Ret false ->
    init seed (mkFiles (Some (Json data)) bak) =
    (Ret tt,
     mkWorld (reset_state seed)
             (mkFiles (Some (Json (dump (reset_state seed)))) (Some (Json data)))).
Proof.
  intros seed bak data Hdict Htrue Hkeys.
  unfold init. cbn [save_file]. unfold load_progress. cbn [disk save_file json_load].
  unfold try, validate_and_adopt. run_method.
  rewrite Hkeys. cbn [negb is_corruption].
  fold (initial_state seed).
  rewrite (@recover_resets data true seed _
             (mkWorld (initial_state seed) (mkFiles None (Some (Json data))))
             AttributeError
             (mkWorld (initial_state seed) (mkFiles None (Some (Json data))))).
  - reflexivity.
  - unfold bind. rewrite backup_corrupted_moves.
    apply load_backup_missing_key. exact Hkeys.
  - unfold data_recovery, salvage. run_method. rewrite Htrue.
    destruct data; try discriminate; reflexivity.
Qed.

Lemma non_dict_document_resets_witness :
  init ["A"; "B"] (mkFiles (Some (Json (VList [VStr "A"; VStr "B"]))) None) =
  (Ret tt,
   mkWorld (reset_state ["A"; "B"])
           (mkFiles (Some (Json (dump (reset_state ["A"; "B"]))))
                    (Some (Json (VList [VStr "A"; VStr "B"]))))).
Proof.
  exact (@non_dict_document_resets ["A"; "B"] None (VList [VStr "A"; VStr "B"])
           eq_refl eq_refl eq_refl).
Defined.

(** X10: when the save file does not parse, or parses to an empty
    dictionary, list or string, nothing is salvaged: construction returns
    with OriginalOrder the seed list de-duplicated without regard to case,
    but with RemainingPool, WatchedLog and UndoHistory empty, so that
    [select_show] returns [None] until a show is added. *)
Theorem unusable_file_empties_pool :
  forall seed b bak data,
    (exists text, b = Garbage text /\ data = VNone) \/
    (b = Json data /\ truthy data = false /\
     all_keys_in required_keys data = Ret false) ->
    init seed (mkFiles (Some b) bak) =
      (Ret tt,
       mkWorld (mkState (names (dedup_ci seed)) (VList []) (VList []) (VList [])
                        (List.length (dedup_ci seed)))
               (mkFiles (Some (Json (dump (mkState (names (dedup_ci seed)) (VList [])
                                                   (VList []) (VList [])
                                                   (List.length (dedup_ci seed))))))
                        (Some b))) /\
    forall draw now,
      fst (select_show draw now (snd (init seed (mkFiles (Some b) bak)))) = Ret VNone.
Proof.
  intros seed b bak data Hroute.
  assert (Hsalvage : forall key, salvage data key = Ret (VList [])).
  { intros key. unfold salvage.
    destruct Hroute as [(text & _ & ->) | (_ & -> & _)]; reflexivity. }
  assert (Hinit : init seed (mkFiles (Some b) bak) =
                  (Ret tt,
                   mkWorld (recovered_state [] [] [] (VList []) seed)
                           (mkFiles (Some (Json (dump (recovered_state [] [] []
                                                         (VList []) seed))))
                                    (Some b)))).
  { unfold init. cbn [save_file]. unfold load_progress. cbn [disk save_file].
    destruct Hroute as [(text & -> & ->) | (-> & _ & Hkeys)].
    - cbn [json_load is_corruption].
      apply recover_salvages; try apply Hsalvage; try reflexivity.
    - cbn [json_load]. unfold try, validate_and_adopt. run_method.
      rewrite Hkeys. cbn [negb is_corruption].
      apply recover_salvages; try apply Hsalvage; try reflexivity.
      apply load_backup_missing_key. exact Hkeys. }
  split; [exact Hinit|].
  intros draw now. rewrite Hinit. reflexivity.
Qed.

Lemma unusable_file_empties_pool_witness :
  remaining_shows (self (snd (init ["A"; "B"; "a"] (mkFiles (Some (Garbage "{x")) None))))
    = VList [] /\
  original_order (self (snd (init ["A"; "B"; "a"] (mkFiles (Some (Garbage "{x")) None))))
    = names ["A"; "B"] /\
  fst (select_show 0 "t" (snd (init ["A"; "B"; "a"] (mkFiles (Some (Garbage "{x")) None))))
    = Ret VNone.
Proof.
  destruct (@unusable_file_empties_pool ["A"; "B"; "a"] (Garbage "{x") None VNone
              (or_introl (ex_intro _ "{x" (conj eq_refl eq_refl)))) as [Hinit Hsel].
  split; [rewrite Hinit; reflexivity|].
  split; [rewrite Hinit; reflexivity | apply Hsel].
Defined.

(** ** The de-duplication loop of Data-Recovery *)

Lemma existsb_eqb_In :
  forall k seen, existsb (String.eqb k) seen = true <-> In k seen.
Proof.
  intros k seen. rewrite existsb_exists. split.
  - intros (x & Hx & Heq). apply String.eqb_eq in Heq. subst x. exact Hx.
  - intros Hin. exists k. split; [exact Hin | apply String.eqb_refl].
Qed.

Lemma dedup_seen_fresh :
  forall l seen y, In y (dedup_seen seen l) -> In y l /\ ~ In (lower y) seen.
Proof.
  induction l as [|x l IH]; intros seen y Hy; simpl in Hy; [contradiction|].
  destruct (existsb (String.eqb (lower x)) seen) eqn:Hseen.
  - destruct (IH _ _ Hy) as [Hin Hout]. split; [right; exact Hin | exact Hout].
  - destruct Hy as [-> | Hy].
    + split; [left; reflexivity|].
      intros Hin. apply existsb_eqb_In in Hin. congruence.
    + destruct (IH _ _ Hy) as [Hin Hout]. split; [right; exact Hin|].
      intros Hs. apply Hout. right. exact Hs.
Qed.

Lemma dedup_seen_distinct :
  forall l seen, NoDup (map lower (dedup_seen seen l)).
Proof.
  induction l as [|x l IH]; intros seen; simpl; [constructor|].
  destruct (existsb (String.eqb (lower x)) seen); [apply IH|].
  simpl. constructor; [|apply IH].
  intros Hin. apply in_map_iff in Hin. destruct Hin as (y & Heq & Hy).
  destruct (dedup_seen_fresh _ _ _ Hy) as [_ Hout].
  apply Hout. left. symmetry. exact Heq.
Qed.

Lemma dedup_seen_covers :
  forall l seen x,
    In x l ->
    In (lower x) seen \/ exists y, In y (dedup_seen seen l) /\ lower y = lower x.
Proof.
  induction l as [|a l IH]; intros seen x Hx; simpl; [contradiction|].
  destruct (existsb (String.eqb (lower a)) seen) eqn:Hseen.
  - destruct Hx as [-> | Hx]; [left; apply existsb_eqb_In; exact Hseen|].
    apply IH. exact Hx.
  - destruct Hx as [-> | Hx].
    + right. exists x. split; [left; reflexivity | reflexivity].
    + destruct (IH (lower a :: seen) x Hx) as [[Heq | Hs] | (y & Hy & Heq)].
      * right. exists a. split; [left; reflexivity | exact Heq].
      * left. exact Hs.
      * right. exists y. split; [right; exact Hy | exact Heq].
Qed.

Lemma dedup_seen_same :
  forall l seen,
    NoDup (map lower l) ->
    (forall x, In x l -> ~ In (lower x) seen) ->
    dedup_seen seen l = l.
Proof.
  induction l as [|a l IH]; intros seen Hnd Hout; simpl; [reflexivity|].
  inversion Hnd as [|? ? Ha Hl]; subst.
  destruct (existsb (String.eqb (lower a)) seen) eqn:Hseen.
  - apply existsb_eqb_In in Hseen. exfalso.
    apply (Hout a); [left; reflexivity | exact Hseen].
  - f_equal. apply IH; [exact Hl|].
    intros x Hx [Heq | Hs].
    + apply Ha. rewrite Heq. apply in_map. exact Hx.
    + apply (Hout x); [right; exact Hx | exact Hs].
Qed.

(** X11: on a list of names the de-duplication loop of Data-Recovery
    returns, and the list it builds has no two names that agree once
    lower-cased, takes its names from the input, has for every input name
    one that agrees with it once lower-cased, starts with the first input
    name, and is the input itself when the input has no such repetition. *)
Theorem dedup_loop_spec :
  forall l, exists kept,
    dedup_lower (map VStr l) [] [] = Ret (map VStr kept) /\
    NoDup (map lower kept) /\
    (forall y, In y kept -> In y l) /\
    (forall x, In x l -> exists y, In y kept /\ lower y = lower x) /\
    (NoDup (map lower l) -> kept = l) /\
    (forall x rest, l = x :: rest -> exists tail, kept = x :: tail).
Proof.
  intros l. exists (dedup_seen [] l).
  split; [rewrite dedup_lower_names; reflexivity|].
  split; [apply dedup_seen_distinct|].
  split; [intros y Hy; apply (dedup_seen_fresh _ _ _ Hy)|].
  split.
  - intros x Hx. destruct (dedup_seen_covers l [] x Hx) as [[] | H]. exact H.
  - split.
    + intros Hnd. apply dedup_seen_same; [exact Hnd | intros x _ []].
    + intros x rest ->. simpl. eexists. reflexivity.
Qed.

Lemma dedup_loop_spec_witness :
  (exists kept,
      dedup_lower (map VStr ["Oz"; "Lost"]) [] [] = Ret (map VStr kept) /\
      kept = ["Oz"; "Lost"]) /\
  (exists kept,
      dedup_lower (map VStr [Ecole; ecole]) [] [] = Ret (map VStr kept) /\
      kept = [Ecole]).
Proof.
  split.
  - destruct (dedup_loop_spec ["Oz"; "Lost"]) as (kept & Hrun & _ & _ & _ & Hsame & _).
    exists kept. split; [exact Hrun|].
    apply Hsame. repeat constructor; simpl; intuition discriminate.
  - destruct (dedup_loop_spec [Ecole; ecole])
      as (kept & Hrun & Hnd & Hfrom & _ & _ & Hfirst).
    exists kept. split; [exact Hrun|].
    destruct (Hfirst Ecole [ecole] eq_refl) as [tail ->].
    destruct tail as [|y tail]; [reflexivity|]. exfalso.
    inversion Hnd as [|? ? Hout _]; subst. apply Hout. left.
    destruct (Hfrom y (or_intror (or_introl eq_refl))) as [<- | [<- | []]];
      reflexivity.
Defined.

(** ** Names stay distinct *)

Lemma engine_step_ci :
  forall o g,
    NoDup (map lower (order g)) -> NoDup (map lower (order (engine_step o g))).
Proof.
  intros o g Hnd. destruct o as [show_name | draw now |]; simpl.
  - unfold engine_add.
    destruct (String.eqb (strip show_name) "" || _) eqn:Hdup; [exact Hnd|].
    apply orb_false_iff in Hdup. destruct Hdup as [_ Hnew].
    simpl. rewrite map_app. simpl.
    apply NoDup_app; [exact Hnd | repeat constructor; easy |].
    intros k Hk [Hk' | []]. subst k.
    apply in_map_iff in Hk. destruct Hk as (x & Heq & Hx).
    assert (Hex : existsb (fun x => String.eqb (lower (strip show_name)) (lower x))
                          (order g) = true).
    { apply existsb_exists. exists x. split; [exact Hx|].
      rewrite Heq. apply String.eqb_refl. }
    congruence.
  - unfold engine_select. destruct (pool g); exact Hnd.
  - unfold engine_undo. destruct (rev (undo g)); exact Hnd.
Qed.

(** X12: [add_show] never brings in a name that differs from a known one
    only by case.  If no two names of the seed list agree once lower-cased,
    then after every sequence of commands on the engine built without a
    save file OriginalOrder is a list of names of which no two agree once
    lower-cased. *)
Theorem names_stay_distinct_ignoring_case :
  forall seed ops,
    NoDup (map lower seed) ->
    exists o,
      original_order (self (snd (run ops (fresh seed)))) = names o /\
      NoDup (map lower o).
Proof.
  intros seed ops Hnd. rewrite fresh_embed.
  destruct (run_embed ops (mkFiles None None) (consistent_init seed)) as [d ->].
  exists (order (engine_run ops (engine_init seed))). split; [reflexivity|].
  generalize (engine_init seed), (Hnd : NoDup (map lower (order (engine_init seed)))).
  induction ops as [|o ops IH]; intros g Hg; simpl; [exact Hg|].
  apply IH. apply engine_step_ci. exact Hg.
Qed.

Lemma names_stay_distinct_ignoring_case_witness :
  exists o,
    original_order (self (snd (run [Add "OZ"; Add "Lost"] (fresh ["Oz"; "Rome"]))))
    = names o /\
    NoDup (map lower o).
Proof.
  apply names_stay_distinct_ignoring_case.
  repeat constructor; simpl; intuition discriminate.
Defined.

(** ** Counts *)

Lemma get_progress_embed :
  forall g d, exists p,
    get_progress (mkWorld (embed g) d) = (Ret p, mkWorld (embed g) d) /\
    watched p = List.length (log g) /\
    remaining p = List.length (pool g) /\
    total p = List.length (order g).
Proof.
  intros g d. unfold get_progress, embed, names, records, true_div. run_method.
  cbn [py_len]. rewrite !length_map.
  destruct (List.length (order g) =? 0); cbn [negb];
    eexists; (split; [reflexivity|]); cbn; auto.
Qed.

(** X13: on an engine built without a save file, from any seed list, no
    sequence of commands raises, [get_progress] returns afterwards without
    changing anything, and the counts it reports add up: watched plus
    remaining is the total, which is the length of OriginalOrder. *)
Theorem progress_counts_add_up :
  forall seed ops,
    fst (run ops (fresh seed)) = Ret tt /\
    exists p,
      get_progress (snd (run ops (fresh seed))) = (Ret p, snd (run ops (fresh seed))) /\
      watched p + remaining p = total p /\
      total p = List.length (original_items (self (snd (run ops (fresh seed))))).
Proof.
  intros seed ops.
  destruct (reachable seed ops) as (g & d & -> & [Hperm _] & _).
  split; [reflexivity|]. cbn [snd].
  destruct (get_progress_embed g d) as (p & Hrun & Hw & Hr & Ht).
  exists p. split; [exact Hrun|].
  rewrite Hw, Hr, Ht.
  unfold original_items, embed, names. cbn [self original_order items].
  rewrite length_map.
  pose proof (Permutation_length Hperm) as Hlen.
  rewrite length_app, length_map in Hlen. split; lia.
Qed.

(** ** WatchedLog and UndoHistory *)

Lemma log_is_history_step :
  forall o g,
    consistent g -> NoDup (order g) -> log g = undo g ->
    log (engine_step o g) = undo (engine_step o g).
Proof.
  intros o g [Hperm Hlog] Hnd Heq. destruct o as [show_name | draw now |]; simpl.
  - unfold engine_add. destruct (_ || _); exact Heq.
  - unfold engine_select. destruct (pool g); [exact Heq|].
    simpl. rewrite Heq. reflexivity.
  - unfold engine_undo. destruct (rev (undo g)) as [|p hs] eqn:Hrev; [exact Heq|].
    simpl. destruct (rev_cons_last _ Hrev) as [Hh _].
    rewrite Heq. rewrite Hh at 1.
    apply (remove1_last pick_eqb pick_eqb_true).
    intros Hin.
    assert (Hshows : NoDup (map show (undo g))).
    { rewrite <- Heq.
      apply (NoDup_app_remove_l (pool g)).
      exact (Permutation_NoDup (Permutation_sym Hperm) Hnd). }
    rewrite Hh, map_app in Hshows. simpl in Hshows.
    apply NoDup_remove_2 in Hshows. rewrite app_nil_r in Hshows.
    apply Hshows. apply in_map. exact Hin.
Qed.

(** X14: for a seed list that names no show twice, WatchedLog and
    UndoHistory are the same list of records after every sequence of
    commands on the engine built without a save file. *)
Theorem log_is_history :
  forall seed ops,
    NoDup seed ->
    watched_shows (self (snd (run ops (fresh seed)))) =
    history (self (snd (run ops (fresh seed)))).
Proof.
  intros seed ops Hnd. rewrite fresh_embed.
  destruct (run_embed ops (mkFiles None None) (consistent_init seed)) as [d ->].
  cbn [snd self embed watched_shows history]. f_equal.
  assert (Hinv : consistent (engine_init seed) /\ NoDup (order (engine_init seed)) /\
                 log (engine_init seed) = undo (engine_init seed)).
  { split; [apply consistent_init | split; [exact Hnd | reflexivity]]. }
  revert Hinv. generalize (engine_init seed).
  induction ops as [|o ops IH]; intros g (Hc & Hd & Heq); simpl; [exact Heq|].
  apply IH. split; [apply consistent_step; exact Hc|].
  split; [apply distinct_step; exact Hd | apply log_is_history_step; assumption].
Qed.

Lemma log_is_history_witness :
  watched_shows (self (snd (run [Select 2 "t1"; Select 0 "t2"; Undo] (fresh ["A"; "B"; "C"]))))
  = history (self (snd (run [Select 2 "t1"; Select 0 "t2"; Undo] (fresh ["A"; "B"; "C"])))).
Proof.
  apply log_is_history. repeat constructor; simpl; intuition discriminate.
Defined.

(** ** Undoing every selection *)

Lemma remove1_length :
  forall y l, In y l -> S (List.length (remove1 String.eqb y l)) = List.length l.
Proof.
  intros y l. induction l as [|x l IH]; simpl; [contradiction|].
  intros Hin. destruct (String.eqb x y) eqn:Hxy; [reflexivity|].
  destruct Hin as [-> | Hin]; [rewrite String.eqb_refl in Hxy; discriminate|].
  simpl. rewrite (IH Hin). reflexivity.
Qed.

Lemma engine_run_app :
  forall l1 l2 g, engine_run (l1 ++ l2) g = engine_run l2 (engine_run l1 g).
Proof. intros l1 l2 g. unfold engine_run. apply fold_left_app. Qed.

Lemma repeat_snoc :
  forall (A : Type) (x : A) n, repeat x (S n) = repeat x n ++ [x].
Proof.
  intros A x n. induction n as [|n IH]; [reflexivity|].
  simpl in *. rewrite <- IH. reflexivity.
Qed.

Lemma undo_all_engine :
  forall picks g,
    consistent g -> NoDup (order g) -> ranked g ->
    List.length picks <= List.length (pool g) ->
    engine_run (selects picks ++ repeat Undo (List.length picks)) g = g.
Proof.
  induction picks as [|[draw now] picks IH]; intros g Hc Hd Hr Hlen; [reflexivity|].
  assert (Hsplit : selects ((draw, now) :: picks) ++
                   repeat Undo (List.length ((draw, now) :: picks))
                   = (Select draw now :: selects picks ++ repeat Undo (List.length picks))
                     ++ [Undo]).
  { cbn [List.length]. rewrite repeat_snoc. simpl. rewrite app_assoc. reflexivity. }
  rewrite Hsplit, engine_run_app.
  change (engine_run (Select draw now :: selects picks ++ repeat Undo (List.length picks)) g)
    with (engine_run (selects picks ++ repeat Undo (List.length picks))
                     (engine_step (Select draw now) g)).
  assert (Hne : pool g <> []).
  { intros Hp. rewrite Hp in Hlen. simpl in Hlen. lia. }
  rewrite IH.
  - simpl. apply undo_select_engine; assumption.
  - apply consistent_step. exact Hc.
  - apply distinct_step. exact Hd.
  - apply ranked_step; assumption.
  - simpl. unfold engine_select.
    destruct (pool g) as [|x r'] eqn:Hp; [contradiction|].
    cbn [pool]. rewrite <- Hp.
    assert (Hin : In (nth (draw mod List.length (pool g)) (pool g) x) (pool g)).
    { apply nth_In, Nat.mod_upper_bound. rewrite Hp. discriminate. }
    pose proof (remove1_length _ _ Hin) as Hrem.
    rewrite <- Hp in Hlen. cbn [List.length] in Hlen. lia.
Qed.

(** X15: for a seed list that names no show twice, selecting any number of
    shows (at most as many as the seed list has) and then undoing as many
    times brings the engine built without a save file back to the
    attributes it started with: the pool is the seed list in its order,
    the log and the history are empty. *)
Theorem undo_all_restores :
  forall seed picks,
    NoDup seed ->
    List.length picks <= List.length seed ->
    fst (run (selects picks ++ repeat Undo (List.length picks)) (fresh seed)) = Ret tt /\
    self (snd (run (selects picks ++ repeat Undo (List.length picks)) (fresh seed)))
    = self (fresh seed).
Proof.
  intros seed picks Hnd Hlen. rewrite fresh_embed.
  destruct (run_embed (selects picks ++ repeat Undo (List.length picks))
              (mkFiles None None) (consistent_init seed)) as [d ->].
  split; [reflexivity|]. cbn [snd self].
  rewrite undo_all_engine; [reflexivity | apply consistent_init | exact Hnd
                            | apply ranked_init; exact Hnd | exact Hlen].
Qed.

Lemma undo_all_restores_witness :
  self (snd (run (selects [(1, "t1"); (5, "t2")] ++ repeat Undo 2) (fresh ["A"; "B"; "C"])))
  = self (fresh ["A"; "B"; "C"]).
Proof.
  assert (Hnd : NoDup ["A"; "B"; "C"]).
  { repeat constructor; simpl; intuition discriminate. }
  assert (Hlen : List.length [(1, "t1"); (5, "t2")] <= List.length ["A"; "B"; "C"]).
  { simpl. lia. }
  exact (proj2 (@undo_all_restores ["A"; "B"; "C"] [(1, "t1"); (5, "t2")] Hnd Hlen)).
Defined.

(** ** A successful selection *)

(** X16: on a pool that is a non-empty list of names, with WatchedLog and
    UndoHistory lists, [select_show] returns the record of the pool element
    at the drawn index with the given timestamp, appends that record to
    both WatchedLog and UndoHistory, removes the first occurrence of the
    chosen name from the pool (which becomes one shorter), leaves
    OriginalOrder and the total count alone, and writes the save file. *)
Theorem select_show_moves_one :
  forall o (x : string) r w h n d draw now,
    let chosen := nth (draw mod List.length (x :: r)) (x :: r) x in
    let sel := selection (VStr chosen) now in
    let s' := mkState o (names (remove1 String.eqb chosen (x :: r)))
                      (VList (w ++ [sel])) (VList (h ++ [sel])) n in
    select_show draw now (mkWorld (mkState o (names (x :: r)) (VList w) (VList h) n) d)
    = (Ret sel, mkWorld s' (saved s' d)) /\
    In chosen (x :: r) /\
    List.length (remove1 String.eqb chosen (x :: r)) = List.length r.
Proof.
  intros o x r w h n d draw now chosen sel s'.
  assert (Hin : In chosen (x :: r)).
  { apply nth_In, Nat.mod_upper_bound. discriminate. }
  split; [|split; [exact Hin|]].
  - unfold select_show. run_method.
    change (truthy (names (x :: r))) with true. fields.
    rewrite random_choice_names. fields. fold chosen. fold sel.
    cbn [list_append]. rewrite (list_remove_names _ _ Hin). fields.
    reflexivity.
  - pose proof (remove1_length _ _ Hin) as Hlen.
    change (List.length (x :: r)) with (S (List.length r)) in Hlen. lia.
Qed.

(** ** Trimming twice *)

Lemma lstrip_fixed : forall s, starts_with_space s = false -> lstrip s = s.
Proof. intros [|c s] H; simpl in *; [reflexivity | rewrite H; reflexivity]. Qed.

Lemma rstrip_fixed : forall s, ends_with_space s = false -> rstrip s = s.
Proof.
  induction s as [|c s IH]; intros H; simpl in *; [reflexivity|].
  destruct s as [|c' s'].
  - simpl. rewrite H. reflexivity.
  - rewrite (IH H). reflexivity.
Qed.

Lemma strip_idempotent : forall s, strip (strip s) = strip s.
Proof.
  intros s. destruct (strip_trims s) as (pre & post & _ & _ & _ & Hst & Hend).
  unfold strip at 1. rewrite (lstrip_fixed _ Hst). apply rstrip_fixed. exact Hend.
Qed.

(** X17: [main] strips the name it reads before it calls [add_show], which
    strips it again; the second trimming changes nothing, so [add_show]
    does the same on a name and on the name already stripped, whatever the
    state. *)
Theorem add_show_strips_once :
  forall show_name,
    strip (strip show_name) = strip show_name /\
    forall w, add_show (strip show_name) w = add_show show_name w.
Proof.
  intros show_name. split; [apply strip_idempotent|].
  intros w. unfold add_show. rewrite strip_idempotent. reflexivity.
Qed.

(** ** The engine [main] builds *)

Lemma nodupb_sound : forall l, nodupb l = true -> NoDup l.
Proof.
  induction l as [|x l IH]; simpl; intros H; [constructor|].
  apply andb_true_iff in H. destruct H as [Hx Hl].
  constructor; [|apply IH; exact Hl].
  intros Hin. apply existsb_eqb_In in Hin. rewrite Hin in Hx. discriminate.
Qed.

Lemma partition_embed :
  forall g, consistent g -> NoDup (order g) -> partition_invariant (embed g).
Proof.
  intros g Hg Hord. split; [|apply members_embed; exact Hg].
  rewrite watched_items_embed.
  unfold remaining_items, embed, names. cbn [remaining_shows items].
  rewrite <- map_app.
  apply Finite.Injective_map_NoDup; [exact VStr_injective|].
  destruct Hg as [Hperm _].
  exact (Permutation_NoDup (Permutation_sym Hperm) Hord).
Qed.

Lemma sorted_embed : forall g, ranked g -> sorted_by_rank (embed g).
Proof.
  intros g Hs. unfold sorted_by_rank.
  replace (map (rank (embed g)) (remaining_items (embed g)))
    with (map (fun y => pos String.eqb y (order g)) (pool g)); [exact Hs|].
  unfold remaining_items, embed at 2, names. cbn [remaining_shows items].
  rewrite map_map. apply map_ext. intros y. symmetry. apply rank_embed.
Qed.

(** X18: the list of fifty shows that [main] passes to the constructor has
    no two names that agree once lower-cased.  Hence, when there is no save
    file, after every sequence of commands on [main]'s engine no command
    has raised, the pool and the items of the log make up OriginalOrder
    with each item once, the pool is in rank order, and no two names of
    OriginalOrder agree once lower-cased. *)
Theorem main_seed_invariants :
  List.length initial_shows = 50 /\
  NoDup (map lower initial_shows) /\
  forall ops,
    fst (run ops (fresh initial_shows)) = Ret tt /\
    partition_invariant (self (snd (run ops (fresh initial_shows)))) /\
    sorted_by_rank (self (snd (run ops (fresh initial_shows)))) /\
    exists o,
      original_order (self (snd (run ops (fresh initial_shows)))) = names o /\
      NoDup (map lower o).
Proof.
  assert (Hci : NoDup (map lower initial_shows)).
  { apply nodupb_sound. vm_compute. reflexivity. }
  assert (Hnd : NoDup initial_shows) by exact (NoDup_map_inv lower _ Hci).
  split; [reflexivity|]. split; [exact Hci|].
  intros ops.
  destruct (reachable initial_shows ops) as (g & d & Hrun & Hg & Hr).
  destruct (Hr Hnd) as [Hord Hs].
  split; [rewrite Hrun; reflexivity|].
  split; [rewrite Hrun; apply partition_embed; assumption|].
  split; [rewrite Hrun; apply sorted_embed; exact Hs|].
  rewrite fresh_embed.
  destruct (run_embed ops (mkFiles None None) (consistent_init initial_shows)) as [d' ->].
  exists (order (engine_run ops (engine_init initial_shows))). split; [reflexivity|].
  generalize (engine_init initial_shows),
             (Hci : NoDup (map lower (order (engine_init initial_shows)))).
  clear. induction ops as [|o ops IH]; intros g Hg; simpl; [exact Hg|].
  apply IH. apply engine_step_ci. exact Hg.
Qed.

(** ** The progress bar *)

Lemma bar_scan : forallb bar_check (seq 0 1001) = true.
Proof. vm_compute. reflexivity. Qed.

Lemma bar_check_at : forall d, d <= 1000 -> bar_check d = true.
Proof.
  intros d Hd. pose proof bar_scan as Hscan.
  rewrite forallb_forall in Hscan. apply Hscan. apply in_seq. lia.
Qed.

Lemma filled_monotone :
  forall d d', d' <= d -> d <= 1000 ->
    (filled_of_tenth d' <= filled_of_tenth d)%Z.
Proof.
  intros d d' Hle. induction Hle as [|d Hle IH]; intros Hd; [lia|].
  assert (Hstep : (filled_of_tenth d <= filled_of_tenth (S d))%Z).
  { pose proof (@bar_check_at d ltac:(lia)) as Hc. unfold bar_check in Hc.
    unfold filled_of_tenth at 1.
    destruct (filled_cells (tenth d)) as [k|]; [|discriminate].
    rewrite !andb_true_iff in Hc. destruct Hc as [_ Hk]. lia. }
  specialize (IH ltac:(lia)). lia.
Qed.

(** X19: for a percentage of [d] tenths with [d] at most 1000, which is
    what [round(x, 1)] returns between 0.0 and 100.0, the bar has [k] full
    cells followed by [30 - k] dashes with [k] at most 30, so 30 cells in
    all; it never has fewer full cells than at a smaller percentage; it is
    empty exactly up to 1.6 and full exactly from 98.4. *)
Theorem progress_bar_on_tenths :
  forall d,
    d <= 1000 ->
    exists k,
      filled_cells (tenth d) = Some (Z.of_nat k) /\
      k <= 30 /\
      display_progress_bar (tenth d) = Some (repeat Filled k ++ repeat Blank (30 - k)) /\
      List.length (repeat Filled k ++ repeat Blank (30 - k)) = 30 /\
      (k = 0 <-> d <= 16) /\
      (k = 30 <-> 984 <= d) /\
      (forall d', d' <= d -> (filled_of_tenth d' <= Z.of_nat k)%Z).
Proof.
  intros d Hd.
  pose proof (@bar_check_at d Hd) as Hc. unfold bar_check in Hc.
  destruct (filled_cells (tenth d)) as [z|] eqn:Hz; [|discriminate].
  rewrite !andb_true_iff in Hc. destruct Hc as ((((Hlo & Hhi) & Hzero) & Hfull) & _).
  apply Z.leb_le in Hlo, Hhi. apply eqb_prop in Hzero, Hfull.
  exists (Z.to_nat z). rewrite Z2Nat.id by exact Hlo.
  split; [reflexivity|]. split; [lia|].
  split.
  { unfold display_progress_bar. rewrite Hz. do 2 f_equal. f_equal. lia. }
  split.
  { rewrite length_app, !repeat_length. lia. }
  split.
  { split; intros H.
    - apply Nat.leb_le. rewrite <- Hzero. apply Z.eqb_eq. lia.
    - apply Nat.leb_le in H. rewrite <- Hzero in H. apply Z.eqb_eq in H. lia. }
  split.
  { split; intros H.
    - apply Nat.leb_le. rewrite <- Hfull. apply Z.eqb_eq. lia.
    - apply Nat.leb_le in H. rewrite <- Hfull in H. apply Z.eqb_eq in H. lia. }
  intros d' Hle. pose proof (@filled_monotone d d' Hle Hd) as Hmono.
  unfold filled_of_tenth at 2 in Hmono. rewrite Hz in Hmono. exact Hmono.
Qed.

Lemma progress_bar_on_tenths_witness :
  exists k,
    filled_cells (tenth 500) = Some (Z.of_nat k) /\
    display_progress_bar (tenth 500) = Some (repeat Filled k ++ repeat Blank (30 - k)) /\
    k <= 30.
Proof.
  assert (Hd : 500 <= 1000) by lia.
  destruct (@progress_bar_on_tenths 500 Hd) as (k & Hk & Hle & Hbar & _).
  exists k. split; [exact Hk|]. split; [exact Hbar | exact Hle].
Defined.
